(** * SI4735 "all in one" STM32/OLED sketch: receiver state machine and
      differential display renderer

    Shallow embedding of [SI4735_03_STM32_ALL_IN_ONE_OLED.ino].  The sketch
    keeps its whole state in global variables and talks to two external
    devices, the Si4735 tuner and the SSD1306 display.  Here the globals are
    the fields of one [State] record that every function threads
    explicitly, and every call into a device (and every [delay]) is appended
    to one ordered event [log], so that the order of tuner commands, display
    commands and settle delays can be stated.

    Modelling decisions:
    - [uint8_t] and [uint16_t] variables are [Z] values reduced modulo 2^8
      and 2^16 where the source stores into them; [int] wraps on 32 bits.
    - [band] is a list updated by index.  An access outside the table is
      undefined in C: the functions that index the table return [None]
      there, and [reachable_ok] with [loop_total] shows this never happens
      in a reachable state.
    - values read back from the tuner, the button lines, the encoder count
      left by the interrupt routine and the outcome of the two [millis()]
      gates are inputs of one [loop] pass ([Inputs]).
    - C strings are [string] values without the terminating NUL. *)

From Stdlib Require Import ZArith Lia String Ascii.
From stdpp Require Import base numbers list strings.

Local Open Scope Z_scope.

(** Left-to-right sequencing of state updates, as statements run. *)
Notation "s |> f" := (f s) (at level 45, left associativity, only parsing).

(** ** Fixed-width integers *)

Definition to_u8 (z : Z) : Z := z mod 256.
Definition to_u16 (z : Z) : Z := z mod 65536.
Definition to_int (z : Z) : Z := (z + 2147483648) mod 4294967296 - 2147483648.

(** ** Constants of the sketch *)

Inductive BandType := FM_BAND_TYPE | MW_BAND_TYPE | SW_BAND_TYPE | LW_BAND_TYPE.

(** [FM 0], [LSB 1], [USB 2], [AM 3]: the values [currentMode] takes. *)
Inductive Mode := FM | LSB | USB | AM.

Definition modeCode (m : Mode) : Z :=
  match m with FM => 0 | LSB => 1 | USB => 2 | AM => 3 end.

Definition bandTypeCode (t : BandType) : Z :=
  match t with
  | FM_BAND_TYPE => 0 | MW_BAND_TYPE => 1 | SW_BAND_TYPE => 2 | LW_BAND_TYPE => 3
  end.

Definition MIN_ELAPSED_TIME : Z := 100.
Definition DEFAULT_VOLUME : Z := 45.

Definition bandModeDesc (m : Mode) : string :=
  match m with FM => "FM " | LSB => "LSB" | USB => "USB" | AM => "AM " end.

Inductive Button :=
| MODE_SWITCH | BANDWIDTH_BUTTON | VOL_UP | VOL_DOWN | BAND_BUTTON_UP
| BAND_BUTTON_DOWN | AGC_SWITCH | STEP_SWITCH | BFO_SWITCH.

#[global] Instance Mode_eq_dec : EqDecision Mode.
Proof. solve_decision. Defined.
#[global] Instance BandType_eq_dec : EqDecision BandType.
Proof. solve_decision. Defined.
#[global] Instance Button_eq_dec : EqDecision Button.
Proof. solve_decision. Defined.

(** ** Band table *)

Module Band.

Record t := mk {
  bandType : BandType;
  minimumFreq : Z;
  maximumFreq : Z;
  currentFreq : Z;
  currentStep : Z
}.

End Band.

Definition band_table : list Band.t := [
  Band.mk FM_BAND_TYPE 8400 10800 10570 10;
  Band.mk LW_BAND_TYPE 100 510 300 1;
  Band.mk MW_BAND_TYPE 520 1720 810 10;
  Band.mk SW_BAND_TYPE 1800 3500 1900 1;
  Band.mk SW_BAND_TYPE 3500 4500 3700 1;
  Band.mk SW_BAND_TYPE 4500 5500 4850 5;
  Band.mk SW_BAND_TYPE 5600 6300 6000 5;
  Band.mk SW_BAND_TYPE 6800 7800 7200 5;
  Band.mk SW_BAND_TYPE 9200 10000 9600 5;
  Band.mk SW_BAND_TYPE 10000 11000 10100 1;
  Band.mk SW_BAND_TYPE 11200 12500 11940 5;
  Band.mk SW_BAND_TYPE 13400 13900 13600 5;
  Band.mk SW_BAND_TYPE 14000 14500 14200 1;
  Band.mk SW_BAND_TYPE 15000 15900 15300 5;
  Band.mk SW_BAND_TYPE 17200 17900 17600 5;
  Band.mk SW_BAND_TYPE 18000 18300 18100 1;
  Band.mk SW_BAND_TYPE 21000 21900 21200 1;
  Band.mk SW_BAND_TYPE 24890 26200 24940 1;
  Band.mk SW_BAND_TYPE 26200 27900 27500 1;
  Band.mk SW_BAND_TYPE 28000 30000 28400 1
].

Definition lastBand : Z := Z.of_nat (length band_table) - 1.

(** ** Device events *)

Inductive TunerCmd :=
| GetDeviceI2CAddress
| SetI2CFastMode
| Setup (defaultFunction : BandType)
| SetVolume (v : Z)
| SetTuneFrequencyAntennaCapacitor (capacitor : Z)
| SetFM (fromFreq toFreq initialFreq step : Z)
| SetAM (fromFreq toFreq initialFreq step : Z)
| SetSSB (fromFreq toFreq initialFreq step usblsb : Z)
| SetSSBAutomaticVolumeControl (avcen : Z)
| SetSsbSoftMuteMaxAttenuation (smattn : Z)
| SetAutomaticGainControl (agcdis agcidx : Z)
| SetAmSoftMuteMaxAttenuation (smattn : Z)
| SetSSBBfo (offset : Z)
| FrequencyUp
| FrequencyDown
| GetFrequency
| SetSSBAudioBandwidth (audiobw : Z)
| SetSBBSidebandCutoffFilter (sbcutflt : Z)
| SetBandwidth (ambw amplflt : Z)
| VolumeUp
| VolumeDown
| GetVolume
| SeekStationUp
| SetFmStereoOn
| SetFmStereoOff
| SetFrequencyStep (step : Z)
| Reset
| QueryLibraryId
| PatchPowerUp
| DownloadPatch
| SetSSBConfig (audiobw sbcutflt avc_divider avcen smutesel dsp_afcdis : Z)
| GetCurrentReceivedSignalQuality
| GetCurrentRSSI
| GetCurrentSNR.

Inductive Color := SSD1306_BLACK | SSD1306_WHITE.

Inductive OledCmd :=
| OledBegin
| ClearDisplay
| SetTextColor (c : Color)
| SetTextSize (n : Z)
| SetCursor (x y : Z)
| Print (s : string)
| Write (c : ascii)
| Display.

Inductive Event :=
| Tuner (c : TunerCmd)
| Oled (c : OledCmd)
| Delay (ms : Z).

#[global] Instance TunerCmd_eq_dec : EqDecision TunerCmd.
Proof. solve_decision. Defined.
#[global] Instance Color_eq_dec : EqDecision Color.
Proof. solve_decision. Defined.
#[global] Instance OledCmd_eq_dec : EqDecision OledCmd.
Proof. solve_decision. Defined.
#[global] Instance Event_eq_dec : EqDecision Event.
Proof. solve_decision. Defined.

(** ** The global variables *)

Record State := mkState {
  currentMode : Mode;
  bfoOn : bool;
  disableAgc : bool;
  ssbLoaded : bool;
  fmStereo : bool;
  displayBuffer : string;
  currentBFO : Z;
  currentFrequency : Z;
  previousFrequency : Z;
  currentStep : Z;
  currentBFOStep : Z;
  bwIdxSSB : Z;
  bwIdxAM : Z;
  band : list Band.t;
  bandIdx : Z;
  rssi : Z;
  snr : Z;
  volume : Z;
  oldFreq : string;
  oldMode : string;
  oldUnit : string;
  log : list Event
}.

Definition set_currentMode (v : Mode) (s : State) : State :=
  mkState v (bfoOn s) (disableAgc s) (ssbLoaded s) (fmStereo s)
    (displayBuffer s) (currentBFO s) (currentFrequency s)
    (previousFrequency s) (currentStep s) (currentBFOStep s) (bwIdxSSB s)
    (bwIdxAM s) (band s) (bandIdx s) (rssi s) (snr s) (volume s) (oldFreq s)
    (oldMode s) (oldUnit s) (log s).

Definition set_bfoOn (v : bool) (s : State) : State :=
  mkState (currentMode s) v (disableAgc s) (ssbLoaded s) (fmStereo s)
    (displayBuffer s) (currentBFO s) (currentFrequency s)
    (previousFrequency s) (currentStep s) (currentBFOStep s) (bwIdxSSB s)
    (bwIdxAM s) (band s) (bandIdx s) (rssi s) (snr s) (volume s) (oldFreq s)
    (oldMode s) (oldUnit s) (log s).

Definition set_disableAgc (v : bool) (s : State) : State :=
  mkState (currentMode s) (bfoOn s) v (ssbLoaded s) (fmStereo s)
    (displayBuffer s) (currentBFO s) (currentFrequency s)
    (previousFrequency s) (currentStep s) (currentBFOStep s) (bwIdxSSB s)
    (bwIdxAM s) (band s) (bandIdx s) (rssi s) (snr s) (volume s) (oldFreq s)
    (oldMode s) (oldUnit s) (log s).

Definition set_ssbLoaded (v : bool) (s : State) : State :=
  mkState (currentMode s) (bfoOn s) (disableAgc s) v (fmStereo s)
    (displayBuffer s) (currentBFO s) (currentFrequency s)
    (previousFrequency s) (currentStep s) (currentBFOStep s) (bwIdxSSB s)
    (bwIdxAM s) (band s) (bandIdx s) (rssi s) (snr s) (volume s) (oldFreq s)
    (oldMode s) (oldUnit s) (log s).

Definition set_fmStereo (v : bool) (s : State) : State :=
  mkState (currentMode s) (bfoOn s) (disableAgc s) (ssbLoaded s) v
    (displayBuffer s) (currentBFO s) (currentFrequency s)
    (previousFrequency s) (currentStep s) (currentBFOStep s) (bwIdxSSB s)
    (bwIdxAM s) (band s) (bandIdx s) (rssi s) (snr s) (volume s) (oldFreq s)
    (oldMode s) (oldUnit s) (log s).

Definition set_displayBuffer (v : string) (s : State) : State :=
  mkState (currentMode s) (bfoOn s) (disableAgc s) (ssbLoaded s) (fmStereo s)
    v (currentBFO s) (currentFrequency s) (previousFrequency s)
    (currentStep s) (currentBFOStep s) (bwIdxSSB s) (bwIdxAM s) (band s)
    (bandIdx s) (rssi s) (snr s) (volume s) (oldFreq s) (oldMode s)
    (oldUnit s) (log s).

Definition set_currentBFO (v : Z) (s : State) : State :=
  mkState (currentMode s) (bfoOn s) (disableAgc s) (ssbLoaded s) (fmStereo s)
    (displayBuffer s) v (currentFrequency s) (previousFrequency s)
    (currentStep s) (currentBFOStep s) (bwIdxSSB s) (bwIdxAM s) (band s)
    (bandIdx s) (rssi s) (snr s) (volume s) (oldFreq s) (oldMode s)
    (oldUnit s) (log s).

Definition set_currentFrequency (v : Z) (s : State) : State :=
  mkState (currentMode s) (bfoOn s) (disableAgc s) (ssbLoaded s) (fmStereo s)
    (displayBuffer s) (currentBFO s) v (previousFrequency s) (currentStep s)
    (currentBFOStep s) (bwIdxSSB s) (bwIdxAM s) (band s) (bandIdx s) (rssi s)
    (snr s) (volume s) (oldFreq s) (oldMode s) (oldUnit s) (log s).

Definition set_previousFrequency (v : Z) (s : State) : State :=
  mkState (currentMode s) (bfoOn s) (disableAgc s) (ssbLoaded s) (fmStereo s)
    (displayBuffer s) (currentBFO s) (currentFrequency s) v (currentStep s)
    (currentBFOStep s) (bwIdxSSB s) (bwIdxAM s) (band s) (bandIdx s) (rssi s)
    (snr s) (volume s) (oldFreq s) (oldMode s) (oldUnit s) (log s).

Definition set_currentStep (v : Z) (s : State) : State :=
  mkState (currentMode s) (bfoOn s) (disableAgc s) (ssbLoaded s) (fmStereo s)
    (displayBuffer s) (currentBFO s) (currentFrequency s)
    (previousFrequency s) v (currentBFOStep s) (bwIdxSSB s) (bwIdxAM s)
    (band s) (bandIdx s) (rssi s) (snr s) (volume s) (oldFreq s) (oldMode s)
    (oldUnit s) (log s).

Definition set_currentBFOStep (v : Z) (s : State) : State :=
  mkState (currentMode s) (bfoOn s) (disableAgc s) (ssbLoaded s) (fmStereo s)
    (displayBuffer s) (currentBFO s) (currentFrequency s)
    (previousFrequency s) (currentStep s) v (bwIdxSSB s) (bwIdxAM s) (band s)
    (bandIdx s) (rssi s) (snr s) (volume s) (oldFreq s) (oldMode s)
    (oldUnit s) (log s).

Definition set_bwIdxSSB (v : Z) (s : State) : State :=
  mkState (currentMode s) (bfoOn s) (disableAgc s) (ssbLoaded s) (fmStereo s)
    (displayBuffer s) (currentBFO s) (currentFrequency s)
    (previousFrequency s) (currentStep s) (currentBFOStep s) v (bwIdxAM s)
    (band s) (bandIdx s) (rssi s) (snr s) (volume s) (oldFreq s) (oldMode s)
    (oldUnit s) (log s).

Definition set_bwIdxAM (v : Z) (s : State) : State :=
  mkState (currentMode s) (bfoOn s) (disableAgc s) (ssbLoaded s) (fmStereo s)
    (displayBuffer s) (currentBFO s) (currentFrequency s)
    (previousFrequency s) (currentStep s) (currentBFOStep s) (bwIdxSSB s) v
    (band s) (bandIdx s) (rssi s) (snr s) (volume s) (oldFreq s) (oldMode s)
    (oldUnit s) (log s).

Definition set_band (v : list Band.t) (s : State) : State :=
  mkState (currentMode s) (bfoOn s) (disableAgc s) (ssbLoaded s) (fmStereo s)
    (displayBuffer s) (currentBFO s) (currentFrequency s)
    (previousFrequency s) (currentStep s) (currentBFOStep s) (bwIdxSSB s)
    (bwIdxAM s) v (bandIdx s) (rssi s) (snr s) (volume s) (oldFreq s)
    (oldMode s) (oldUnit s) (log s).

Definition set_bandIdx (v : Z) (s : State) : State :=
  mkState (currentMode s) (bfoOn s) (disableAgc s) (ssbLoaded s) (fmStereo s)
    (displayBuffer s) (currentBFO s) (currentFrequency s)
    (previousFrequency s) (currentStep s) (currentBFOStep s) (bwIdxSSB s)
    (bwIdxAM s) (band s) v (rssi s) (snr s) (volume s) (oldFreq s) (oldMode s)
    (oldUnit s) (log s).

Definition set_rssi (v : Z) (s : State) : State :=
  mkState (currentMode s) (bfoOn s) (disableAgc s) (ssbLoaded s) (fmStereo s)
    (displayBuffer s) (currentBFO s) (currentFrequency s)
    (previousFrequency s) (currentStep s) (currentBFOStep s) (bwIdxSSB s)
    (bwIdxAM s) (band s) (bandIdx s) v (snr s) (volume s) (oldFreq s)
    (oldMode s) (oldUnit s) (log s).

Definition set_snr (v : Z) (s : State) : State :=
  mkState (currentMode s) (bfoOn s) (disableAgc s) (ssbLoaded s) (fmStereo s)
    (displayBuffer s) (currentBFO s) (currentFrequency s)
    (previousFrequency s) (currentStep s) (currentBFOStep s) (bwIdxSSB s)
    (bwIdxAM s) (band s) (bandIdx s) (rssi s) v (volume s) (oldFreq s)
    (oldMode s) (oldUnit s) (log s).

Definition set_volume (v : Z) (s : State) : State :=
  mkState (currentMode s) (bfoOn s) (disableAgc s) (ssbLoaded s) (fmStereo s)
    (displayBuffer s) (currentBFO s) (currentFrequency s)
    (previousFrequency s) (currentStep s) (currentBFOStep s) (bwIdxSSB s)
    (bwIdxAM s) (band s) (bandIdx s) (rssi s) (snr s) v (oldFreq s)
    (oldMode s) (oldUnit s) (log s).

Definition set_oldFreq (v : string) (s : State) : State :=
  mkState (currentMode s) (bfoOn s) (disableAgc s) (ssbLoaded s) (fmStereo s)
    (displayBuffer s) (currentBFO s) (currentFrequency s)
    (previousFrequency s) (currentStep s) (currentBFOStep s) (bwIdxSSB s)
    (bwIdxAM s) (band s) (bandIdx s) (rssi s) (snr s) (volume s) v (oldMode s)
    (oldUnit s) (log s).

Definition set_oldMode (v : string) (s : State) : State :=
  mkState (currentMode s) (bfoOn s) (disableAgc s) (ssbLoaded s) (fmStereo s)
    (displayBuffer s) (currentBFO s) (currentFrequency s)
    (previousFrequency s) (currentStep s) (currentBFOStep s) (bwIdxSSB s)
    (bwIdxAM s) (band s) (bandIdx s) (rssi s) (snr s) (volume s) (oldFreq s) v
    (oldUnit s) (log s).

Definition set_oldUnit (v : string) (s : State) : State :=
  mkState (currentMode s) (bfoOn s) (disableAgc s) (ssbLoaded s) (fmStereo s)
    (displayBuffer s) (currentBFO s) (currentFrequency s)
    (previousFrequency s) (currentStep s) (currentBFOStep s) (bwIdxSSB s)
    (bwIdxAM s) (band s) (bandIdx s) (rssi s) (snr s) (volume s) (oldFreq s)
    (oldMode s) v (log s).

Definition set_log (v : list Event) (s : State) : State :=
  mkState (currentMode s) (bfoOn s) (disableAgc s) (ssbLoaded s) (fmStereo s)
    (displayBuffer s) (currentBFO s) (currentFrequency s)
    (previousFrequency s) (currentStep s) (currentBFOStep s) (bwIdxSSB s)
    (bwIdxAM s) (band s) (bandIdx s) (rssi s) (snr s) (volume s) (oldFreq s)
    (oldMode s) (oldUnit s) v.

(** What one pass of [loop] reads from the outside world. *)
Record Inputs := mkInputs {
  (** the [encoderCount] left by the interrupt routine *)
  encoderCount : Z;
  (** [(millis() - elapsedButton) > MIN_ELAPSED_TIME] *)
  buttonsDue : bool;
  (** [digitalRead(b) == LOW] *)
  pressed : Button -> bool;
  (** [si4735.getFrequency()] after an encoder step *)
  tunedFrequency : Z;
  (** [si4735.getFrequency()] after a seek *)
  seekFrequency : Z;
  (** [si4735.getVolume()] *)
  readVolume : Z;
  (** [(millis() - elapsedRSSI) > MIN_ELAPSED_RSSI_TIME * 10] *)
  rssiDue : bool;
  (** [si4735.getCurrentRSSI()] and [si4735.getCurrentSNR()] *)
  readRSSI : Z;
  readSNR : Z
}.

(** The declared initial values; arrays and plain globals start zeroed. *)
Definition init : State := {|
  currentMode := FM; bfoOn := false; disableAgc := true; ssbLoaded := false;
  fmStereo := true; displayBuffer := ""; currentBFO := 0;
  currentFrequency := 0; previousFrequency := 0; currentStep := 1;
  currentBFOStep := 25; bwIdxSSB := 2; bwIdxAM := 1; band := band_table;
  bandIdx := 0; rssi := 0; snr := 0; volume := DEFAULT_VOLUME;
  oldFreq := ""; oldMode := ""; oldUnit := ""; log := []
|}.

Definition emit (e : Event) (s : State) : State := set_log (log s ++ [e]) s.
Definition tuner (c : TunerCmd) : State -> State := emit (Tuner c).
Definition oled (c : OledCmd) : State -> State := emit (Oled c).
Definition delay (ms : Z) : State -> State := emit (Delay ms).
Definition oledAll (cs : list OledCmd) (s : State) : State :=
  set_log (log s ++ map Oled cs) s.

(** ** Display helpers that the sketch leaves empty *)

Definition clearLine4 (s : State) : State := s.
Definition showStatus (s : State) : State := s.
Definition showRSSI (s : State) : State := s.
Definition showVolume (s : State) : State := s.
Definition showBFO (s : State) : State := s.

(** ** printValue *)

(** [p[0]] of a C string: its first character, or the terminating NUL. *)
Definition firstChar (p : string) : ascii :=
  match p with
  | EmptyString => Ascii.zero
  | String c _ => c
  end.

(** The first [while] loop, over the common length of both strings:
    returns the commands sent, the column reached and what is left of both
    strings. *)
Fixpoint printChanged (c line space : Z) (pOld pNew : string)
  : list OledCmd * Z * string * string :=
  match pOld, pNew with
  | String o pOld', String n pNew' =>
      let '(rest, c', rOld, rNew) :=
        printChanged (c + space) line space pOld' pNew' in
      ((if decide (o = n) then []
        else [SetTextColor SSD1306_BLACK; SetCursor c line; Write o;
              SetTextColor SSD1306_WHITE; SetCursor c line; Write n])
       ++ rest, c', rOld, rNew)
  | _, _ => ([], c, pOld, pNew)
  end.

(** The two trailing [while] loops: [setCursor(c, line)], write the
    character, advance [c] by [space], until the end of the string. *)
Fixpoint printRest (c line space : Z) (p : string) : list OledCmd * Z :=
  match p with
  | EmptyString => ([], c)
  | String ch p' =>
      let '(rest, c') := printRest (c + space) line space p' in
      (SetCursor c line :: Write ch :: rest, c')
  end.

(** The commands sent to the display, and the new content of [oldValue]
    (the closing [strcpy]). *)
Definition printValue (col line : Z) (oldValue newValue : string) (space : Z)
  : list OledCmd * string :=
  let '(changed, c, pOld, pNew) :=
    printChanged col line space oldValue newValue in
  let '(erased, c1) := printRest c line space pOld in
  let '(printed, _) := printRest c1 line space pNew in
  ([SetCursor 38 0; Write (firstChar newValue); Write (firstChar oldValue)]
   ++ changed
   ++ [SetTextColor SSD1306_BLACK] ++ erased
   ++ [SetTextColor SSD1306_WHITE] ++ printed,
   newValue).

(** ** showFrequency *)

Definition digitChar (d : Z) : ascii := ascii_of_nat (48 + Z.to_nat d).

Fixpoint utoa_aux (fuel : nat) (n : Z) (acc : string) : string :=
  match fuel with
  | O => acc
  | S fuel' =>
      let acc' := String (digitChar (n mod 10)) acc in
      if n / 10 =? 0 then acc' else utoa_aux fuel' (n / 10) acc'
  end.

(** Decimal digits of an unsigned value (a 32-bit value has at most ten). *)
Definition utoa (n : Z) : string := utoa_aux 10 n "".

Fixpoint spaces (n : nat) : string :=
  match n with
  | O => ""
  | S n' => String " " (spaces n')
  end.

(** [sprintf(tmp, "%5u", n)]: right-aligned in five columns, padded with
    blanks. *)
Definition sprintf_5u (n : Z) : string :=
  let d := utoa n in
  spaces (5 - String.length d) +:+ d.

(** [tmp[i]].  Past the last character the model gives NUL; for a 16-bit
    value the rendering has five characters ([sprintf_5u_length]) and
    [showFrequency] stays inside it. *)
Definition charAt (s : string) (i : nat) : ascii :=
  match String.get i s with
  | Some c => c
  | None => Ascii.zero
  end.

(** The C string held by a character array: it stops at the first NUL. *)
Fixpoint cstring (l : list ascii) : string :=
  match l with
  | [] => ""
  | c :: l' => if decide (c = Ascii.zero) then "" else String c (cstring l')
  end.

(** The local [freq] and [unit] of [showFrequency]. *)
Definition freqField (t : BandType) (frequency : Z) : string * string :=
  let tmp := sprintf_5u frequency in
  if decide (t = FM_BAND_TYPE) then
    (cstring [charAt tmp 0; charAt tmp 1; charAt tmp 2; "."%char;
              charAt tmp 3; charAt tmp 4], "MHz")
  else
    (cstring [charAt tmp 0; charAt tmp 1; charAt tmp 2; charAt tmp 3;
              charAt tmp 4], "KHz").

(** The local [bandMode] of [showFrequency]. *)
Definition modeLabel (frequency : Z) (m : Mode) : string :=
  if frequency <? 520 then "LW  " else bandModeDesc m.

Definition getBand (s : State) : option Band.t :=
  if bandIdx s <? 0 then None else band s !! Z.to_nat (bandIdx s).

Definition showFrequency (s : State) : option State :=
  b ← getBand s;
  let '(freq, unit) := freqField (Band.bandType b) (currentFrequency s) in
  let s := set_displayBuffer
             (if bfoOn s then ">" +:+ freq +:+ "<" else freq) s in
  let '(cmds, old) := printValue 38 0 (oldFreq s) (displayBuffer s) 7 in
  let s := s |> oledAll cmds |> set_oldFreq old in
  let bandMode := modeLabel (currentFrequency s) (currentMode s) in
  let '(cmds, old) := printValue 0 0 (oldMode s) bandMode 7 in
  let s := s |> oledAll cmds |> set_oldMode old in
  let '(cmds, old) := printValue 0 0 (oldUnit s) unit 7 in
  let s := s |> oledAll cmds |> set_oldUnit old in
  Some (s |> oled Display).

(** ** Band switching *)

(** [band[bandIdx].currentFreq = currentFrequency;
     band[bandIdx].currentStep = currentStep;] *)
Definition saveBand (s : State) : option State :=
  b ← getBand s;
  Some (set_band
          (<[Z.to_nat (bandIdx s) :=
               Band.mk (Band.bandType b) (Band.minimumFreq b)
                       (Band.maximumFreq b) (currentFrequency s)
                       (currentStep s)]> (band s)) s).

Definition loadSSB (s : State) : State :=
  s |> tuner Reset
    |> tuner QueryLibraryId
    |> tuner PatchPowerUp
    |> delay 50
    |> tuner DownloadPatch
    |> (fun s => tuner (SetSSBConfig (bwIdxSSB s) 1 0 0 0 1) s)
    |> delay 25
    |> set_ssbLoaded true.

Definition useBand (s : State) : option State :=
  b ← getBand s;
  let s :=
    if decide (Band.bandType b = FM_BAND_TYPE) then
      s |> set_currentMode FM
        |> tuner (SetTuneFrequencyAntennaCapacitor 0)
        |> tuner (SetFM (Band.minimumFreq b) (Band.maximumFreq b)
                        (Band.currentFreq b) (Band.currentStep b))
        |> set_ssbLoaded false
        |> set_bfoOn false
    else
      let s :=
        if decide (Band.bandType b = MW_BAND_TYPE
                   ∨ Band.bandType b = LW_BAND_TYPE)
        then tuner (SetTuneFrequencyAntennaCapacitor 0) s
        else tuner (SetTuneFrequencyAntennaCapacitor 1) s in
      if ssbLoaded s then
        s |> tuner (SetSSB (Band.minimumFreq b) (Band.maximumFreq b)
                           (Band.currentFreq b) (Band.currentStep b)
                           (modeCode (currentMode s)))
          |> tuner (SetSSBAutomaticVolumeControl 1)
          |> tuner (SetSsbSoftMuteMaxAttenuation 0)
      else
        s |> set_currentMode AM
          |> tuner (SetAM (Band.minimumFreq b) (Band.maximumFreq b)
                          (Band.currentFreq b) (Band.currentStep b))
          |> tuner (SetAutomaticGainControl 1 0)
          |> tuner (SetAmSoftMuteMaxAttenuation 0)
          |> set_bfoOn false
  in
  Some (s |> delay 100
          |> set_currentFrequency (Band.currentFreq b)
          |> set_currentStep (to_u8 (Band.currentStep b))
          |> showStatus).

Definition bandUp (s : State) : option State :=
  s ← saveBand s;
  useBand (if bandIdx s <? lastBand
           then set_bandIdx (bandIdx s + 1) s
           else set_bandIdx 0 s).

Definition bandDown (s : State) : option State :=
  s ← saveBand s;
  useBand (if 0 <? bandIdx s
           then set_bandIdx (bandIdx s - 1) s
           else set_bandIdx lastBand s).

(** ** loop *)

(** [if (encoderCount != 0) { ... encoderCount = 0; }] *)
Definition encoderMoved (i : Inputs) (s : State) : State :=
  if encoderCount i =? 0 then s
  else if bfoOn s then
    s |> set_currentBFO
           (to_int (if encoderCount i =? 1
                    then currentBFO s + currentBFOStep s
                    else currentBFO s - currentBFOStep s))
      |> (fun s => tuner (SetSSBBfo (currentBFO s)) s)
      |> showBFO
  else
    s |> tuner (if encoderCount i =? 1 then FrequencyUp else FrequencyDown)
      |> tuner GetFrequency
      |> set_currentFrequency (to_u16 (tunedFrequency i)).

Definition bandwidthButton (s : State) : State :=
  let s :=
    if decide (currentMode s = LSB ∨ currentMode s = USB) then
      let s := set_bwIdxSSB (to_u8 (bwIdxSSB s + 1)) s in
      let s := if 5 <? bwIdxSSB s then set_bwIdxSSB 0 s else s in
      let s := tuner (SetSSBAudioBandwidth (bwIdxSSB s)) s in
      if decide (bwIdxSSB s = 0 ∨ bwIdxSSB s = 4 ∨ bwIdxSSB s = 5)
      then tuner (SetSBBSidebandCutoffFilter 0) s
      else tuner (SetSBBSidebandCutoffFilter 1) s
    else if decide (currentMode s = AM) then
      let s := set_bwIdxAM (to_u8 (bwIdxAM s + 1)) s in
      let s := if 6 <? bwIdxAM s then set_bwIdxAM 0 s else s in
      tuner (SetBandwidth (bwIdxAM s) 1) s
    else s in
  s |> showStatus |> delay MIN_ELAPSED_TIME.

Definition volUpButton (i : Inputs) (s : State) : State :=
  s |> tuner VolumeUp |> tuner GetVolume |> set_volume (to_u8 (readVolume i))
    |> showVolume |> delay MIN_ELAPSED_TIME.

Definition volDownButton (i : Inputs) (s : State) : State :=
  s |> tuner VolumeDown |> tuner GetVolume |> set_volume (to_u8 (readVolume i))
    |> showVolume |> delay MIN_ELAPSED_TIME.

Definition bfoSwitch (i : Inputs) (s : State) : State :=
  let s :=
    if decide (currentMode s = LSB ∨ currentMode s = USB) then
      let s := set_bfoOn (negb (bfoOn s)) s in
      let s := if bfoOn s then showBFO s else s in
      showStatus s
    else if decide (currentMode s = FM) then
      s |> tuner SeekStationUp |> delay 30 |> tuner GetFrequency
        |> set_currentFrequency (to_u16 (seekFrequency i))
    else s in
  delay MIN_ELAPSED_TIME s.

Definition agcSwitch (s : State) : State :=
  let s := set_disableAgc (negb (disableAgc s)) s in
  s |> tuner (SetAutomaticGainControl (Z.b2z (disableAgc s)) 1) |> showStatus.

Definition stepSwitch (s : State) : option State :=
  if decide (currentMode s = FM) then
    let s := set_fmStereo (negb (fmStereo s)) s in
    Some (if fmStereo s then tuner SetFmStereoOn s else tuner SetFmStereoOff s)
  else
    s ← (if bfoOn s && bool_decide (currentMode s = LSB ∨ currentMode s = USB)
         then
           Some (s |> set_currentBFOStep
                        (if currentBFOStep s =? 25 then 10 else 25)
                   |> showBFO)
         else
           let s :=
             if currentStep s =? 1 then set_currentStep 5 s
             else if currentStep s =? 5 then set_currentStep 10 s
             else set_currentStep 1 s in
           let s := tuner (SetFrequencyStep (currentStep s)) s in
           b ← getBand s;
           Some (s |> set_band
                        (<[Z.to_nat (bandIdx s) :=
                             Band.mk (Band.bandType b) (Band.minimumFreq b)
                                     (Band.maximumFreq b) (Band.currentFreq b)
                                     (currentStep s)]> (band s))
                   |> showStatus));
    Some (delay MIN_ELAPSED_TIME s).

Definition modeSwitch (s : State) : option State :=
  if decide (currentMode s ≠ FM) then
    let s :=
      if decide (currentMode s = AM) then
        s |> loadSSB |> set_currentMode LSB
      else if decide (currentMode s = LSB) then
        set_currentMode USB s
      else if decide (currentMode s = USB) then
        s |> set_currentMode AM |> set_ssbLoaded false |> set_bfoOn false
      else s in
    s ← saveBand s;
    useBand s
  else Some s.

(** [if ((millis() - elapsedButton) > MIN_ELAPSED_TIME) { ... }]: the first
    button of the chain that reads LOW is served. *)
Definition checkButtons (i : Inputs) (s : State) : option State :=
  if buttonsDue i then
    if pressed i BANDWIDTH_BUTTON then Some (bandwidthButton s)
    else if pressed i BAND_BUTTON_UP then bandUp s
    else if pressed i BAND_BUTTON_DOWN then bandDown s
    else if pressed i VOL_UP then Some (volUpButton i s)
    else if pressed i VOL_DOWN then Some (volDownButton i s)
    else if pressed i BFO_SWITCH then Some (bfoSwitch i s)
    else if pressed i AGC_SWITCH then Some (agcSwitch s)
    else if pressed i STEP_SWITCH then stepSwitch s
    else if pressed i MODE_SWITCH then modeSwitch s
    else Some s
  else Some s.

(** [if (currentFrequency != previousFrequency) { ... }] *)
Definition frequencyChanged (s : State) : option State :=
  if decide (currentFrequency s ≠ previousFrequency s) then
    showFrequency (set_previousFrequency (currentFrequency s) s)
  else Some s.

(** [if ((millis() - elapsedRSSI) > MIN_ELAPSED_RSSI_TIME * 10) { ... }] *)
Definition checkRSSI (i : Inputs) (s : State) : State :=
  if rssiDue i then
    let s := s |> tuner GetCurrentReceivedSignalQuality |> tuner GetCurrentRSSI in
    let aux := readRSSI i in
    if decide (rssi s ≠ aux) then
      s |> set_rssi (to_u8 aux) |> tuner GetCurrentSNR
        |> set_snr (to_u8 (readSNR i)) |> showRSSI
    else s
  else s.

Definition loop (i : Inputs) (s : State) : option State :=
  s ← checkButtons i (encoderMoved i s);
  s ← frequencyChanged s;
  Some (s |> checkRSSI i |> delay 10).

(** ** setup *)

(** [frequency] is what [si4735.getFrequency()] returns after [useBand]. *)
Definition setup (frequency : Z) (s : State) : option State :=
  let s :=
    s |> oled OledBegin |> oled ClearDisplay |> oled (SetTextColor SSD1306_WHITE)
      |> oled (SetTextSize 1)
      |> oled (SetCursor 40 0) |> oled (Print "SI4735")
      |> oled (SetCursor 20 10) |> oled (Print "Arduino Library")
      |> oled Display |> delay 500
      |> oled (SetCursor 15 20) |> oled (Print "All in One Radio")
      |> oled Display |> delay 500
      |> oled (SetCursor 30 35) |> oled (Print "SMT32 - OLED")
      |> oled (SetCursor 10 50) |> oled (Print "V1.1.6 - By PU2CLR")
      |> oled Display |> delay 2000
      |> tuner GetDeviceI2CAddress |> tuner SetI2CFastMode
      |> tuner (Setup FM_BAND_TYPE) |> delay 300 in
  s ← useBand s;
  Some (s |> tuner GetFrequency
          |> set_currentFrequency (to_u16 frequency)
          |> set_previousFrequency (to_u16 frequency)
          |> (fun s => tuner (SetVolume (volume s)) s)
          |> oled ClearDisplay |> showStatus).

(** ** Reachable states *)

Inductive reachable : State -> Prop :=
| reachable_setup frequency s :
    setup frequency init = Some s -> reachable s
| reachable_loop i s s' :
    reachable s -> loop i s = Some s' -> reachable s'.

(** The band table keeps its size and [bandIdx] points into it. *)
Definition bandIdx_ok (s : State) : Prop :=
  length (band s) = length band_table ∧ 0 <= bandIdx s <= lastBand.

(** ** Observations on the event log *)

(** The commands sent to the tuner, in order. *)
Fixpoint tunerCmds (l : list Event) : list TunerCmd :=
  match l with
  | [] => []
  | Tuner c :: l' => c :: tunerCmds l'
  | _ :: l' => tunerCmds l'
  end.

(** The number of patch downloads.  [loadSSB] is the only function that
    sends [DownloadPatch], once per run, so this counts the runs of the
    patch-load sequence. *)
Fixpoint patchLoads (l : list Event) : nat :=
  match l with
  | [] => O
  | Tuner DownloadPatch :: l' => S (patchLoads l')
  | _ :: l' => patchLoads l'
  end.

(** The type of the band [bandIdx] points to. *)
Definition currentBandType (s : State) : option BandType :=
  Band.bandType <$> getBand s.

(** The index arithmetic of [bandUp] and [bandDown]. *)
Definition nextIdx (i : Z) : Z := if i <? lastBand then i + 1 else 0.
Definition prevIdx (i : Z) : Z := if 0 <? i then i - 1 else lastBand.

(** [n] presses in a row. *)
Fixpoint times (n : nat) (f : State -> option State) (s : State)
  : option State :=
  match n with
  | O => Some s
  | S n' => s' ← f s; times n' f s'
  end.

Definition inRange (i : Z) : Prop := 0 <= i <= lastBand.

(** The state [bandUp] and [bandDown] hand to [useBand]: the outgoing
    entry holds [currentFrequency] and [currentStep], and [bandIdx] is [i]. *)
Definition switchTo (i : Z) (b : Band.t) (s : State) : State :=
  s |> set_band (<[Z.to_nat (bandIdx s) :=
                     Band.mk (Band.bandType b) (Band.minimumFreq b)
                       (Band.maximumFreq b) (currentFrequency s)
                       (currentStep s)]> (band s))
    |> set_bandIdx i.

(** What one run of [loadSSB] sends, for the bandwidth index [bw]. *)
Definition loadSSB_events (bw : Z) : list Event :=
  [Tuner Reset; Tuner QueryLibraryId; Tuner PatchPowerUp; Delay 50;
   Tuner DownloadPatch; Tuner (SetSSBConfig bw 1 0 0 0 1); Delay 25].

(** The patch-load trace in the specification's words: reset, query
    library id, patch power-up, a settle delay, the download, a settle
    delay, the SSB configuration with bandwidth [bw], a settle delay. *)
Definition spec_patchLoadTrace (bw : Z) (l : list Event) : Prop :=
  ∃ d1 d2 d3 sbcutflt avc_divider avcen smutesel dsp_afcdis,
    l = [Tuner Reset; Tuner QueryLibraryId; Tuner PatchPowerUp; Delay d1;
         Tuner DownloadPatch; Delay d2;
         Tuner (SetSSBConfig bw sbcutflt avc_divider avcen smutesel dsp_afcdis);
         Delay d3].

(** [s'] differs from [s] at most in what [showFrequency] touches: the
    display caches, [displayBuffer], [previousFrequency], and display
    commands [cs] added to the log. *)
Definition displayOnly (cs : list OledCmd) (s s' : State) : Prop :=
  ∃ buffer previous freq mode unit,
    s' = mkState (currentMode s) (bfoOn s) (disableAgc s) (ssbLoaded s)
           (fmStereo s) buffer (currentBFO s) (currentFrequency s) previous
           (currentStep s) (currentBFOStep s) (bwIdxSSB s) (bwIdxAM s)
           (band s) (bandIdx s) (rssi s) (snr s) (volume s) freq mode unit
           (log s ++ map Oled cs).

(** The order in which the button scan of [loop] reads the lines. *)
Definition scanOrder : list Button :=
  [BANDWIDTH_BUTTON; BAND_BUTTON_UP; BAND_BUTTON_DOWN; VOL_UP; VOL_DOWN;
   BFO_SWITCH; AGC_SWITCH; STEP_SWITCH; MODE_SWITCH].

(** The button a pass serves: the first one in scan order that reads LOW,
    provided the scan is due. *)
Definition served (i : Inputs) : option Button :=
  if buttonsDue i then find (pressed i) scanOrder else None.

(** The step that follows [x] in the cycle 1, 5, 10. *)
Definition nextStep (x : Z) : Z :=
  if x =? 1 then 5 else if x =? 5 then 10 else 1.

(** BFO adjustment is active: [bfoOn] in LSB or USB. *)
Definition bfoActive (s : State) : bool :=
  bfoOn s && bool_decide (currentMode s = LSB ∨ currentMode s = USB).

(** ** The mode machine inside [loop]

    The part of the state the mode logic depends on: [currentMode],
    [ssbLoaded] and [bfoOn]. *)
Definition Radio : Type := Mode * bool * bool.

Definition radio (s : State) : Radio := (currentMode s, ssbLoaded s, bfoOn s).

(** What [useBand] makes of it, on an FM band ([fm]) or another one. *)
Definition usedBand (fm : bool) (r : Radio) : Radio :=
  let '(m, loaded, bfo) := r in
  if fm then (FM, false, false)
  else if loaded then (m, true, bfo)
  else (AM, false, false).

(** What the mode switch makes of it before it calls [useBand], and how
    many times it runs [loadSSB]. *)
Definition modePressed (r : Radio) : Radio * nat :=
  let '(m, loaded, bfo) := r in
  match m with
  | AM => ((LSB, true, bfo), 1%nat)
  | LSB => ((USB, loaded, bfo), 0%nat)
  | USB => ((AM, false, false), 0%nat)
  | FM => (r, 0%nat)
  end.

(** The moves of one pass of [loop] that serves [button], with the number
    of patch loads. *)
Inductive radioStep (button : option Button) : Radio -> nat -> Radio -> Prop :=
| rs_same r :
    radioStep button r 0 r
| rs_bfo m loaded bfo :
    button = Some BFO_SWITCH -> m = LSB ∨ m = USB ->
    radioStep button (m, loaded, bfo) 0 (m, loaded, negb bfo)
| rs_band fm r :
    button = Some BAND_BUTTON_UP ∨ button = Some BAND_BUTTON_DOWN ->
    radioStep button r 0 (usedBand fm r)
| rs_mode fm r :
    button = Some MODE_SWITCH -> r.1.1 ≠ FM ->
    radioStep button r (modePressed r).2 (usedBand fm (modePressed r).1).

(** [s'] has the mode state, the band table, the band index and the patch
    load count of [s]. *)
Definition untouched (s s' : State) : Prop :=
  radio s' = radio s ∧ band s' = band s ∧ bandIdx s' = bandIdx s
  ∧ patchLoads (log s') = patchLoads (log s).

Definition isFM (t : BandType) : bool := bool_decide (t = FM_BAND_TYPE).

(** The two invariants of the mode machine. *)
Definition ssbInv (r : Radio) : Prop :=
  let '(m, loaded, _) := r in m = LSB ∨ m = USB -> loaded = true.

Definition bfoInv (r : Radio) : Prop :=
  let '(m, _, bfo) := r in bfo = true -> m = LSB ∨ m = USB.

(** ** Glyph cells written by a run of display commands

    The display keeps a text colour and a cursor; the cursor moves on by
    one glyph after each write.  The glyph width belongs to the display
    library, so a cell is named by the cursor position last set and the
    number of glyphs written since. *)
Record Pen := mkPen {
  pen_x : Z;
  pen_y : Z;
  pen_advance : nat;
  pen_color : Color
}.

Record Glyph := mkGlyph {
  glyph_x : Z;
  glyph_y : Z;
  glyph_advance : nat;
  glyph_color : Color;
  glyph_char : ascii
}.

Definition penStep (p : Pen) (c : OledCmd) : Pen :=
  match c with
  | SetCursor x y => mkPen x y 0 (pen_color p)
  | SetTextColor color => mkPen (pen_x p) (pen_y p) (pen_advance p) color
  | Write _ => mkPen (pen_x p) (pen_y p) (S (pen_advance p)) (pen_color p)
  | _ => p
  end.

Fixpoint glyphs (p : Pen) (cs : list OledCmd) : list Glyph :=
  match cs with
  | [] => []
  | c :: cs' =>
      match c with
      | Write ch =>
          [mkGlyph (pen_x p) (pen_y p) (pen_advance p) (pen_color p) ch]
      | _ => []
      end ++ glyphs (penStep p c) cs'
  end.

(** One glyph per character of [p], [space] apart from column [c] on. *)
Fixpoint textGlyphs (color : Color) (c line space : Z) (p : string)
  : list Glyph :=
  match p with
  | EmptyString => []
  | String ch p' =>
      mkGlyph c line 0 color ch :: textGlyphs color (c + space) line space p'
  end.

(** The differential renderer in the specification's words: over the
    common length, where the characters differ, the old glyph in background
    colour and then the new glyph in foreground colour at that column;
    after it, the trailing glyphs of the longer string, erased if it is the
    old one and drawn if it is the new one. *)
Fixpoint spec_render (c line space : Z) (oldText newText : string)
  : list Glyph :=
  match oldText, newText with
  | String o oldText', String n newText' =>
      (if decide (o = n) then []
       else [mkGlyph c line 0 SSD1306_BLACK o;
             mkGlyph c line 0 SSD1306_WHITE n])
      ++ spec_render (c + space) line space oldText' newText'
  | _, EmptyString => textGlyphs SSD1306_BLACK c line space oldText
  | EmptyString, _ => textGlyphs SSD1306_WHITE c line space newText
  end.

(** After the first loop of [printValue], the two trailing loops. *)
Definition trailing (q : list OledCmd * Z * string * string)
                    (line space : Z) : list OledCmd :=
  let '(_, c, pOld, pNew) := q in
  [SetTextColor SSD1306_BLACK] ++ (printRest c line space pOld).1
  ++ [SetTextColor SSD1306_WHITE]
  ++ (printRest (printRest c line space pOld).2 line space pNew).1.

(** A receiver tuned to 7200 kHz on the 40 m band, in the mode [m]. *)
Definition on40m (m : Mode) : State :=
  init |> set_bandIdx 7 |> set_currentMode m |> set_currentFrequency 7200
       |> set_currentStep 5.

(** A receiver tuned to 300 kHz on the long wave band, in the mode [m]. *)
Definition onLW (m : Mode) : State :=
  init |> set_bandIdx 1 |> set_currentMode m |> set_currentFrequency 300.

(** A pass of [loop] in which only button [b] reads LOW: encoder at rest,
    button scan due, no RSSI poll. *)
Definition pressing (b : Button) : Inputs := {|
  encoderCount := 0; buttonsDue := true;
  pressed := fun x => bool_decide (x = b);
  tunedFrequency := 0; seekFrequency := 0; readVolume := DEFAULT_VOLUME;
  rssiDue := false; readRSSI := 0; readSNR := 0
|}.

(** [setup] followed by one pass of [loop] per element of [inputs]. *)
Definition run (frequency : Z) (inputs : list Inputs) : option State :=
  foldl (fun acc i => s ← acc; loop i s) (setup frequency init) inputs.

(** From [s] to [s'] the log only grew, and by no patch download. *)
Definition quiet (s s' : State) : Prop :=
  ∃ evs, log s' = log s ++ evs ∧ patchLoads evs = O.

(** From [s] to [s'] the log grew by one run of the patch-load sequence,
    with the bandwidth index of [s], and by no other patch download. *)
Definition patchLoadRun (s s' : State) : Prop :=
  ∃ before after,
    log s' = log s ++ before ++ loadSSB_events (bwIdxSSB s) ++ after
    ∧ patchLoads before = O ∧ patchLoads after = O.

(** ** Well-formed receiver states *)

(** The tuning steps the sketch uses. *)
Definition stepOk (x : Z) : Prop := x = 1 ∨ x = 5 ∨ x = 10.

(** Entry [b] of the table in use against entry [b0] of the table as
    declared: same type and limits, a step of 1, 5 or 10 and a 16-bit
    frequency. *)
Definition entryOk (b0 b : Band.t) : Prop :=
  Band.bandType b = Band.bandType b0
  ∧ Band.minimumFreq b = Band.minimumFreq b0
  ∧ Band.maximumFreq b = Band.maximumFreq b0
  ∧ stepOk (Band.currentStep b)
  ∧ 0 <= Band.currentFreq b < 65536.

(** The tuner commands whose arguments have a documented range. *)
Definition okCmd (c : TunerCmd) : Prop :=
  match c with
  | SetSSBAudioBandwidth audiobw => 0 <= audiobw <= 5
  | SetSSBConfig audiobw _ _ _ _ _ => 0 <= audiobw <= 5
  | SetSBBSidebandCutoffFilter sbcutflt => sbcutflt = 0 ∨ sbcutflt = 1
  | SetBandwidth ambw _ => 0 <= ambw <= 6
  | SetFrequencyStep step => stepOk step
  | SetFM _ _ _ step => stepOk step
  | SetAM _ _ _ step => stepOk step
  | SetSSB _ _ _ step usblsb => stepOk step ∧ (usblsb = 1 ∨ usblsb = 2)
  | _ => True
  end.

Record wf (s : State) : Prop := mkWf {
  wf_idx : bandIdx_ok s;
  wf_ssb : 0 <= bwIdxSSB s <= 5;
  wf_am : 0 <= bwIdxAM s <= 6;
  wf_step : stepOk (currentStep s);
  wf_bfoStep : currentBFOStep s = 10 ∨ currentBFOStep s = 25;
  wf_freq : 0 <= currentFrequency s < 65536;
  wf_band : Forall2 entryOk band_table (band s);
  wf_loaded : ssbLoaded s = true -> currentMode s = LSB ∨ currentMode s = USB;
  wf_fm : currentMode s = FM <-> currentBandType s = Some FM_BAND_TYPE;
  wf_log : Forall okCmd (tunerCmds (log s))
}.

(** The commands sent to the display, in order. *)
Fixpoint oledCmds (l : list Event) : list OledCmd :=
  match l with
  | [] => []
  | Oled c :: l' => c :: oledCmds l'
  | _ :: l' => oledCmds l'
  end.

(** ** rotaryEncoder

    The interrupt routine.  [encoderStatus] is what [encoder.process()]
    returns and [DIR_CW] the constant of [Rotary.h]; the result is the new
    [encoderCount]. *)
Definition rotaryEncoder (DIR_CW encoderStatus encoderCount : Z) : Z :=
  if encoderStatus =? 0 then encoderCount
  else if encoderStatus =? DIR_CW then 1
  else -1.

(** A pass of [loop] after the encoder moved and with no button served. *)
Definition turning (count : Z) : Inputs := {|
  encoderCount := count; buttonsDue := false;
  pressed := fun _ => false;
  tunedFrequency := 0; seekFrequency := 0; readVolume := DEFAULT_VOLUME;
  rssiDue := false; readRSSI := 0; readSNR := 0
|}.

(** From [s] to [s'] nothing was sent to the display and
    [previousFrequency] was left alone. *)
Definition silent (s s' : State) : Prop :=
  previousFrequency s' = previousFrequency s
  ∧ ∃ evs, log s' = log s ++ evs ∧ oledCmds evs = [].

(** * Proof support *)

(** Unfolds the state updates down to the record constructor. *)
Ltac state_norm :=
  cbv [tuner oled delay emit oledAll showStatus showBFO showRSSI showVolume
       clearLine4 set_currentMode set_bfoOn set_disableAgc set_ssbLoaded
       set_fmStereo set_displayBuffer set_currentBFO set_currentFrequency
       set_previousFrequency set_currentStep set_currentBFOStep set_bwIdxSSB
       set_bwIdxAM set_band set_bandIdx set_rssi set_snr set_volume
       set_oldFreq set_oldMode set_oldUnit set_log
       currentMode bfoOn disableAgc ssbLoaded fmStereo displayBuffer
       currentBFO currentFrequency previousFrequency currentStep
       currentBFOStep bwIdxSSB bwIdxAM band bandIdx rssi snr volume oldFreq
       oldMode oldUnit log].

(** Reduces projections of updated states, leaving the rest alone. *)
Ltac state_simpl :=
  cbn [tuner oled delay emit oledAll showStatus showBFO showRSSI showVolume
       clearLine4 set_currentMode set_bfoOn set_disableAgc set_ssbLoaded
       set_fmStereo set_displayBuffer set_currentBFO set_currentFrequency
       set_previousFrequency set_currentStep set_currentBFOStep set_bwIdxSSB
       set_bwIdxAM set_band set_bandIdx set_rssi set_snr set_volume
       set_oldFreq set_oldMode set_oldUnit set_log
       currentMode bfoOn disableAgc ssbLoaded fmStereo displayBuffer
       currentBFO currentFrequency previousFrequency currentStep
       currentBFOStep bwIdxSSB bwIdxAM band bandIdx rssi snr volume oldFreq
       oldMode oldUnit log].

(** * Basic facts *)

Lemma tunerCmds_app l1 l2 : tunerCmds (l1 ++ l2) = tunerCmds l1 ++ tunerCmds l2.
Proof.
  induction l1 as [|[c|c|ms] l1 IH]; simpl; [reflexivity| |assumption..].
  now rewrite IH.
Qed.

Lemma tunerCmds_oled cs : tunerCmds (map Oled cs) = [].
Proof. induction cs; simpl; auto. Qed.

Lemma patchLoads_app l1 l2 :
  patchLoads (l1 ++ l2) = (patchLoads l1 + patchLoads l2)%nat.
Proof.
  induction l1 as [|[c|c|ms] l1 IH]; simpl; [reflexivity| |assumption..].
  destruct c; simpl; auto.
Qed.

Lemma patchLoads_oled cs : patchLoads (map Oled cs) = O.
Proof. induction cs; simpl; auto. Qed.

Lemma lastBand_eq : lastBand = 19.
Proof. reflexivity. Qed.

Lemma getBand_is_Some s : bandIdx_ok s -> is_Some (getBand s).
Proof.
  intros [Hlen Hidx]. unfold getBand.
  destruct (Z.ltb_spec (bandIdx s) 0); [lia|].
  apply lookup_lt_is_Some. rewrite Hlen, lastBand_eq in *. simpl. lia.
Qed.

Lemma getBand_Some_ok s b :
  length (band s) = length band_table -> getBand s = Some b -> bandIdx_ok s.
Proof.
  unfold getBand. intros Hlen H.
  destruct (Z.ltb_spec (bandIdx s) 0); [discriminate|].
  apply lookup_lt_Some in H. split; [assumption|].
  rewrite Hlen, lastBand_eq in *. simpl in H. lia.
Qed.

(** [useBand] reads the table, it never writes to it. *)
Lemma useBand_band s s' :
  useBand s = Some s' -> band s' = band s ∧ bandIdx s' = bandIdx s.
Proof.
  unfold useBand. intros H.
  destruct (getBand s) as [b|]; simplify_eq/=.
  repeat case_decide; repeat case_match; auto.
Qed.

Lemma useBand_is_Some s : bandIdx_ok s -> is_Some (useBand s).
Proof.
  intros [b Hb]%getBand_is_Some. unfold useBand. rewrite Hb. simpl. eauto.
Qed.

Lemma useBand_ok s s' : bandIdx_ok s -> useBand s = Some s' -> bandIdx_ok s'.
Proof.
  intros Hok [Hb Hi]%useBand_band. unfold bandIdx_ok. now rewrite Hb, Hi.
Qed.

Lemma saveBand_is_Some s : bandIdx_ok s -> is_Some (saveBand s).
Proof.
  intros [b Hb]%getBand_is_Some. unfold saveBand. rewrite Hb. simpl. eauto.
Qed.

Lemma saveBand_spec s s' :
  saveBand s = Some s' ->
  ∃ b, getBand s = Some b
    ∧ s' = set_band (<[Z.to_nat (bandIdx s) :=
                        Band.mk (Band.bandType b) (Band.minimumFreq b)
                          (Band.maximumFreq b) (currentFrequency s)
                          (currentStep s)]> (band s)) s.
Proof.
  unfold saveBand. destruct (getBand s) as [b|]; intros; simplify_eq/=. eauto.
Qed.

Lemma saveBand_ok s s' : bandIdx_ok s -> saveBand s = Some s' -> bandIdx_ok s'.
Proof.
  intros [Hlen Hidx] (b & _ & ->)%saveBand_spec.
  split; simpl; [now rewrite length_insert|assumption].
Qed.

(** Saving into the table leaves the type of the current band alone. *)
Lemma saveBand_getBand s s' b :
  saveBand s = Some s' -> getBand s = Some b ->
  getBand s' = Some (Band.mk (Band.bandType b) (Band.minimumFreq b)
                       (Band.maximumFreq b) (currentFrequency s)
                       (currentStep s)).
Proof.
  intros (b' & Hb' & ->)%saveBand_spec Hb.
  rewrite Hb in Hb'. injection Hb' as <-.
  unfold getBand in *. simpl.
  destruct (bandIdx s <? 0); [discriminate|].
  apply list_lookup_insert_eq. now apply lookup_lt_Some in Hb.
Qed.

Lemma bandUp_is_Some s : bandIdx_ok s -> is_Some (bandUp s).
Proof.
  intros Hok. unfold bandUp.
  destruct (saveBand_is_Some s Hok) as [s1 H1]. rewrite H1. simpl.
  pose proof (saveBand_ok _ _ Hok H1) as [Hlen Hidx].
  apply useBand_is_Some.
  destruct (Z.ltb_spec (bandIdx s1) lastBand); split; simpl; auto;
    rewrite lastBand_eq in *; lia.
Qed.

Lemma bandDown_is_Some s : bandIdx_ok s -> is_Some (bandDown s).
Proof.
  intros Hok. unfold bandDown.
  destruct (saveBand_is_Some s Hok) as [s1 H1]. rewrite H1. simpl.
  pose proof (saveBand_ok _ _ Hok H1) as [Hlen Hidx].
  apply useBand_is_Some.
  destruct (Z.ltb_spec 0 (bandIdx s1)); split; simpl; auto;
    rewrite lastBand_eq in *; lia.
Qed.


Lemma bandUp_bandIdx s s' :
  bandUp s = Some s' -> bandIdx s' = nextIdx (bandIdx s).
Proof.
  unfold bandUp. intros H.
  destruct (saveBand s) as [s1|] eqn:H1; simplify_eq/=.
  apply saveBand_spec in H1 as (b & _ & ->).
  apply useBand_band in H as [_ ->]. simpl. unfold nextIdx.
  now destruct (bandIdx s <? lastBand).
Qed.

Lemma bandDown_bandIdx s s' :
  bandDown s = Some s' -> bandIdx s' = prevIdx (bandIdx s).
Proof.
  unfold bandDown. intros H.
  destruct (saveBand s) as [s1|] eqn:H1; simplify_eq/=.
  apply saveBand_spec in H1 as (b & _ & ->).
  apply useBand_band in H as [_ ->]. simpl. unfold prevIdx.
  now destruct (0 <? bandIdx s).
Qed.

Lemma bandUp_ok s s' : bandIdx_ok s -> bandUp s = Some s' -> bandIdx_ok s'.
Proof.
  intros Hok H. pose proof (bandUp_bandIdx _ _ H) as Hi.
  unfold bandUp in H. destruct (saveBand s) as [s1|] eqn:H1; simplify_eq/=.
  pose proof (saveBand_ok _ _ Hok H1) as [Hlen Hidx].
  apply useBand_band in H as [Hb _].
  split; [now rewrite Hb; destruct (bandIdx s1 <? lastBand)|].
  rewrite Hi. destruct Hok as [_ Hr]. unfold nextIdx.
  destruct (Z.ltb_spec (bandIdx s) lastBand); rewrite lastBand_eq in *; lia.
Qed.

Lemma bandDown_ok s s' : bandIdx_ok s -> bandDown s = Some s' -> bandIdx_ok s'.
Proof.
  intros Hok H. pose proof (bandDown_bandIdx _ _ H) as Hi.
  unfold bandDown in H. destruct (saveBand s) as [s1|] eqn:H1; simplify_eq/=.
  pose proof (saveBand_ok _ _ Hok H1) as [Hlen Hidx].
  apply useBand_band in H as [Hb _].
  split; [now rewrite Hb; destruct (0 <? bandIdx s1)|].
  rewrite Hi. destruct Hok as [_ Hr]. unfold prevIdx.
  destruct (Z.ltb_spec 0 (bandIdx s)); rewrite lastBand_eq in *; lia.
Qed.

Lemma checkButtons_served i s :
  checkButtons i s
  = match served i with
    | Some BANDWIDTH_BUTTON => Some (bandwidthButton s)
    | Some BAND_BUTTON_UP => bandUp s
    | Some BAND_BUTTON_DOWN => bandDown s
    | Some VOL_UP => Some (volUpButton i s)
    | Some VOL_DOWN => Some (volDownButton i s)
    | Some BFO_SWITCH => Some (bfoSwitch i s)
    | Some AGC_SWITCH => Some (agcSwitch s)
    | Some STEP_SWITCH => stepSwitch s
    | Some MODE_SWITCH => modeSwitch s
    | None => Some s
    end.
Proof.
  unfold checkButtons, served, scanOrder.
  destruct (buttonsDue i); [simpl|reflexivity].
  repeat match goal with
         | |- context [pressed i ?b] =>
             destruct (pressed i b); [reflexivity|]
         end.
  reflexivity.
Qed.

(** * Band up and band down (C2) *)


Lemma nextIdx_inRange i : inRange i -> inRange (nextIdx i).
Proof.
  unfold inRange, nextIdx. rewrite lastBand_eq.
  destruct (Z.ltb_spec i 19); lia.
Qed.

Lemma prevIdx_inRange i : inRange i -> inRange (prevIdx i).
Proof.
  unfold inRange, prevIdx. rewrite lastBand_eq.
  destruct (Z.ltb_spec 0 i); lia.
Qed.

Lemma prevIdx_nextIdx i : inRange i -> prevIdx (nextIdx i) = i.
Proof.
  unfold inRange, prevIdx, nextIdx. rewrite lastBand_eq.
  destruct (Z.ltb_spec i 19); [destruct (Z.ltb_spec 0 (i + 1))|]; simpl; lia.
Qed.

Lemma nextIdx_prevIdx i : inRange i -> nextIdx (prevIdx i) = i.
Proof.
  unfold inRange, prevIdx, nextIdx. rewrite lastBand_eq.
  destruct (Z.ltb_spec 0 i); [destruct (Z.ltb_spec (i - 1) 19)|]; simpl; lia.
Qed.

Lemma iter_inRange f n i :
  (∀ j, inRange j -> inRange (f j)) -> inRange i -> inRange (Nat.iter n f i).
Proof. intros Hf Hi. induction n; simpl; auto. Qed.

Lemma iter_undo f g n i :
  (∀ j, inRange j -> inRange (f j)) ->
  (∀ j, inRange j -> g (f j) = j) ->
  inRange i -> Nat.iter n g (Nat.iter n f i) = i.
Proof.
  intros Hf Hgf Hi. induction n as [|n IH]; [reflexivity|].
  rewrite Nat.iter_succ_r. simpl.
  rewrite Hgf; [assumption|]. now apply iter_inRange.
Qed.

Lemma times_bandUp n s :
  bandIdx_ok s ->
  ∃ s', times n bandUp s = Some s' ∧ bandIdx_ok s'
        ∧ bandIdx s' = Nat.iter n nextIdx (bandIdx s).
Proof.
  revert s. induction n as [|n IH]; intros s Hok; simpl; [eauto|].
  destruct (bandUp_is_Some s Hok) as [s1 H1]. rewrite H1. simpl.
  destruct (IH s1 (bandUp_ok _ _ Hok H1)) as (s' & Ht & Hok' & Hi).
  exists s'. repeat split; [assumption|apply Hok'..|].
  rewrite Hi, (bandUp_bandIdx _ _ H1).
  change (nextIdx (Nat.iter n nextIdx (bandIdx s)))
    with (Nat.iter (S n) nextIdx (bandIdx s)).
  now rewrite Nat.iter_succ_r.
Qed.

Lemma times_bandDown n s :
  bandIdx_ok s ->
  ∃ s', times n bandDown s = Some s' ∧ bandIdx_ok s'
        ∧ bandIdx s' = Nat.iter n prevIdx (bandIdx s).
Proof.
  revert s. induction n as [|n IH]; intros s Hok; simpl; [eauto|].
  destruct (bandDown_is_Some s Hok) as [s1 H1]. rewrite H1. simpl.
  destruct (IH s1 (bandDown_ok _ _ Hok H1)) as (s' & Ht & Hok' & Hi).
  exists s'. repeat split; [assumption|apply Hok'..|].
  rewrite Hi, (bandDown_bandIdx _ _ H1).
  change (prevIdx (Nat.iter n prevIdx (bandIdx s)))
    with (Nat.iter (S n) prevIdx (bandIdx s)).
  now rewrite Nat.iter_succ_r.
Qed.


Lemma bandUp_unfold s b :
  getBand s = Some b -> bandUp s = useBand (switchTo (nextIdx (bandIdx s)) b s).
Proof.
  intros Hb. unfold bandUp, saveBand. rewrite Hb. simpl.
  unfold nextIdx, switchTo. now destruct (bandIdx s <? lastBand).
Qed.

Lemma bandDown_unfold s b :
  getBand s = Some b -> bandDown s = useBand (switchTo (prevIdx (bandIdx s)) b s).
Proof.
  intros Hb. unfold bandDown, saveBand. rewrite Hb. simpl.
  unfold prevIdx, switchTo. now destruct (0 <? bandIdx s).
Qed.

Lemma switchTo_saved i b s s' :
  getBand s = Some b -> useBand (switchTo i b s) = Some s' ->
  band s' !! Z.to_nat (bandIdx s)
  = Some (Band.mk (Band.bandType b) (Band.minimumFreq b) (Band.maximumFreq b)
            (currentFrequency s) (currentStep s)).
Proof.
  intros Hb [-> _]%useBand_band. simpl.
  unfold getBand in Hb. destruct (bandIdx s <? 0); [discriminate|].
  apply list_lookup_insert_eq. now apply lookup_lt_Some in Hb.
Qed.

(** C2.  From any band of the table, [n] band-up steps followed by [n]
    band-down steps, or [n] band-down steps followed by [n] band-up steps,
    all succeed and bring [bandIdx] back to where it started.  One step
    stores [currentFrequency] and [currentStep] in the entry of the band
    being left, moves [bandIdx] by one with wrap-around at both ends of the
    table (after the last band comes band 0, before band 0 the last band),
    and then runs [useBand] on that state. *)
Theorem band_up_down_roundtrip (n : nat) (s : State) :
  bandIdx_ok s ->
  (∃ s1 s2, times n bandUp s = Some s1 ∧ times n bandDown s1 = Some s2
            ∧ bandIdx s2 = bandIdx s)
  ∧ (∃ s1 s2, times n bandDown s = Some s1 ∧ times n bandUp s1 = Some s2
              ∧ bandIdx s2 = bandIdx s)
  ∧ (∃ b, getBand s = Some b
      ∧ bandUp s = useBand (switchTo (nextIdx (bandIdx s)) b s)
      ∧ bandDown s = useBand (switchTo (prevIdx (bandIdx s)) b s)
      ∧ ∃ up down, bandUp s = Some up ∧ bandDown s = Some down
          ∧ bandIdx up = (if decide (bandIdx s = lastBand)
                          then 0 else bandIdx s + 1)
          ∧ bandIdx down = (if decide (bandIdx s = 0)
                            then lastBand else bandIdx s - 1)
          ∧ ∀ s', s' = up ∨ s' = down ->
              band s' !! Z.to_nat (bandIdx s)
              = Some (Band.mk (Band.bandType b) (Band.minimumFreq b)
                        (Band.maximumFreq b) (currentFrequency s)
                        (currentStep s))).
Proof.
  intros Hok. pose proof Hok as [_ Hr]. repeat split.
  - destruct (times_bandUp n s Hok) as (s1 & H1 & Hok1 & Hi1).
    destruct (times_bandDown n s1 Hok1) as (s2 & H2 & _ & Hi2).
    exists s1, s2. repeat split; [assumption..|].
    rewrite Hi2, Hi1.
    apply iter_undo; auto using nextIdx_inRange, prevIdx_nextIdx.
  - destruct (times_bandDown n s Hok) as (s1 & H1 & Hok1 & Hi1).
    destruct (times_bandUp n s1 Hok1) as (s2 & H2 & _ & Hi2).
    exists s1, s2. repeat split; [assumption..|].
    rewrite Hi2, Hi1.
    apply iter_undo; auto using prevIdx_inRange, nextIdx_prevIdx.
  - destruct (getBand_is_Some s Hok) as [b Hb]. exists b.
    split; [assumption|]. split; [now apply bandUp_unfold|].
    split; [now apply bandDown_unfold|].
    destruct (bandUp_is_Some s Hok) as [up Hup].
    destruct (bandDown_is_Some s Hok) as [down Hdown].
    exists up, down. repeat split; [assumption..| | |].
    + rewrite (bandUp_bandIdx _ _ Hup). unfold nextIdx.
      destruct (Z.ltb_spec (bandIdx s) lastBand); case_decide; lia.
    + rewrite (bandDown_bandIdx _ _ Hdown). unfold prevIdx.
      destruct (Z.ltb_spec 0 (bandIdx s)); case_decide; lia.
    + intros s' [->| ->].
      * rewrite (bandUp_unfold _ _ Hb) in Hup. eapply switchTo_saved; eauto.
      * rewrite (bandDown_unfold _ _ Hb) in Hdown. eapply switchTo_saved; eauto.
Qed.

(** * The SSB patch loader (C3) *)

(** C3, as the code has it.  Every run of [loadSSB] appends to the log
    exactly: reset, query library id, patch power-up, a 50 ms delay, the
    patch download, directly followed (no delay) by
    [setSSBConfig(bwIdxSSB, 1, 0, 0, 0, 1)] with the current [bwIdxSSB],
    then a 25 ms delay; it then sets [ssbLoaded] and changes nothing else. *)
Theorem loadSSB_trace (s : State) :
  loadSSB s
  = set_ssbLoaded true (set_log (log s ++ loadSSB_events (bwIdxSSB s)) s)
  ∧ log (loadSSB s) = log s ++ loadSSB_events (bwIdxSSB s)
  ∧ ssbLoaded (loadSSB s) = true.
Proof.
  unfold loadSSB, loadSSB_events, tuner, delay, emit. simpl.
  rewrite <- !app_assoc. simpl. repeat split; reflexivity.
Qed.

(** C3, as the specification words it, fails: no delay separates the patch
    download from the SSB configuration call. *)
Lemma loadSSB_trace_not_spec :
  ¬ spec_patchLoadTrace (bwIdxSSB init) (log (loadSSB init)).
Proof.
  intros (d1 & d2 & d3 & a & b & c & d & e & H). vm_compute in H.
  discriminate H.
Qed.

(** * The passes of [loop] around the button scan *)

Lemma encoderMoved_idle i s : encoderCount i = 0 -> encoderMoved i s = s.
Proof. unfold encoderMoved. now intros ->. Qed.

Lemma checkRSSI_idle i s : rssiDue i = false -> checkRSSI i s = s.
Proof. unfold checkRSSI. now intros ->. Qed.

Lemma displayOnly_refl s : displayOnly [] s s.
Proof.
  exists (displayBuffer s), (previousFrequency s), (oldFreq s), (oldMode s),
    (oldUnit s).
  destruct s; simpl. now rewrite app_nil_r.
Qed.

Lemma showFrequency_displayOnly s s' :
  showFrequency s = Some s' -> ∃ cs, displayOnly cs s s'.
Proof.
  unfold showFrequency. destruct (getBand s) as [b|]; [|discriminate].
  cbn [mbind option_bind].
  destruct (freqField _ _) as [freq unit]. cbv zeta.
  set (p1 := printValue 38 0 _ _ 7). destruct p1 as [cs1 old1].
  set (p2 := printValue 0 0 _ _ 7). destruct p2 as [cs2 old2].
  set (p3 := printValue 0 0 _ _ 7). destruct p3 as [cs3 old3].
  intros [= <-]. exists (cs1 ++ cs2 ++ cs3 ++ [Display]).
  unfold displayOnly. do 5 eexists.
  unfold oled, oledAll, emit. state_norm. f_equal.
  rewrite !map_app, <- !app_assoc. reflexivity.
Qed.

Lemma showFrequency_is_Some s : is_Some (getBand s) -> is_Some (showFrequency s).
Proof.
  intros [b Hb]. unfold showFrequency. rewrite Hb.
  cbn [mbind option_bind].
  destruct (freqField _ _) as [freq unit]. cbv zeta.
  set (p1 := printValue 38 0 _ _ 7). destruct p1 as [cs1 old1].
  set (p2 := printValue 0 0 _ _ 7). destruct p2 as [cs2 old2].
  set (p3 := printValue 0 0 _ _ 7). destruct p3 as [cs3 old3].
  eauto.
Qed.

Lemma frequencyChanged_displayOnly s s' :
  frequencyChanged s = Some s' -> ∃ cs, displayOnly cs s s'.
Proof.
  unfold frequencyChanged. case_decide.
  - intros [cs Hd]%showFrequency_displayOnly. exists cs.
    destruct Hd as (b & p & f & m & u & ->). unfold displayOnly.
    simpl. eauto 10.
  - intros [= <-]. exists []. apply displayOnly_refl.
Qed.

Lemma frequencyChanged_is_Some s :
  is_Some (getBand s) -> is_Some (frequencyChanged s).
Proof.
  intros H. unfold frequencyChanged.
  case_decide; [now apply showFrequency_is_Some|eauto].
Qed.

Lemma displayOnly_ok cs s s' : displayOnly cs s s' -> bandIdx_ok s -> bandIdx_ok s'.
Proof. now intros (b & p & f & m & u & ->). Qed.

(** A pass with the encoder at rest and no RSSI poll is the button scan,
    a possible redraw of the frequency line, and the closing delay. *)
Lemma loop_buttons_only i s s1 :
  encoderCount i = 0 -> rssiDue i = false ->
  checkButtons i s = Some s1 -> bandIdx_ok s1 ->
  ∃ cs s2, displayOnly cs s1 s2 ∧ loop i s = Some (delay 10 s2).
Proof.
  intros He Hr Hb Hok. unfold loop.
  rewrite (encoderMoved_idle _ _ He), Hb. simpl.
  destruct (frequencyChanged_is_Some s1 (getBand_is_Some _ Hok)) as [s2 H2].
  destruct (frequencyChanged_displayOnly _ _ H2) as [cs Hd].
  rewrite H2. simpl. rewrite (checkRSSI_idle _ _ Hr). eauto.
Qed.

(** * The differential renderer (C4) *)

Lemma glyphs_app p cs1 cs2 :
  glyphs p (cs1 ++ cs2)
  = glyphs p cs1 ++ glyphs (fold_left penStep cs1 p) cs2.
Proof.
  revert p. induction cs1 as [|c cs1 IH]; intros p; simpl; [reflexivity|].
  now rewrite IH, app_assoc.
Qed.

Lemma printRest_glyphs p c line space text :
  glyphs p (printRest c line space text).1
  = textGlyphs (pen_color p) c line space text
  ∧ pen_color (fold_left penStep (printRest c line space text).1 p)
    = pen_color p.
Proof.
  revert p c. induction text as [|ch text IH]; intros p c; simpl; [auto|].
  destruct (printRest (c + space) line space text) as [rest c'] eqn:E.
  simpl. specialize (IH (mkPen c line 1 (pen_color p)) (c + space)).
  rewrite E in IH. simpl in IH. destruct IH as [-> ->]. auto.
Qed.

Lemma trailing_glyphs p cs c line space pOld pNew :
  pOld = "" ∨ pNew = "" ->
  glyphs p (trailing (cs, c, pOld, pNew) line space)
  = spec_render c line space pOld pNew.
Proof.
  intros H. unfold trailing.
  cbn [app glyphs penStep]. rewrite glyphs_app. cbn [app glyphs penStep].
  set (pB := mkPen _ _ _ SSD1306_BLACK).
  destruct (printRest_glyphs pB c line space pOld) as [-> _].
  rewrite (proj1 (printRest_glyphs _ _ _ _ _)). subst pB. cbn [pen_color].
  destruct H as [-> | ->]; simpl.
  - destruct pNew; reflexivity.
  - rewrite app_nil_r. destruct pOld; reflexivity.
Qed.

Lemma printChanged_glyphs p c line space oldText newText :
  let q := printChanged c line space oldText newText in
  glyphs p (q.1.1.1 ++ trailing q line space)
  = spec_render c line space oldText newText.
Proof.
  revert p c newText.
  induction oldText as [|o oldText IH]; intros p c newText.
  - simpl printChanged. cbv zeta. cbn [fst app].
    apply trailing_glyphs. now left.
  - destruct newText as [|n newText].
    + simpl printChanged. cbv zeta. cbn [fst app].
      apply trailing_glyphs. now right.
    + simpl printChanged. cbv zeta.
      specialize (IH (if decide (o = n) then p
                      else mkPen c line 1 SSD1306_WHITE) (c + space) newText).
      cbv zeta in IH.
      destruct (printChanged (c + space) line space oldText newText)
        as [[[rest c'] rOld] rNew].
      cbn [fst] in *.
      change (trailing (_, c', rOld, rNew) line space)
        with (trailing (rest, c', rOld, rNew) line space).
      set (t := trailing (rest, c', rOld, rNew) line space) in *.
      rewrite <- app_assoc, glyphs_app. simpl spec_render.
      case_decide; simpl; rewrite IH; reflexivity.
Qed.

(** What [printValue] writes: two glyphs at (38, 0), the first characters of
    the new and of the old text in whatever colour is current, and then
    what the differential rendering asks for. *)
Lemma printValue_glyphs p col line oldValue newValue space :
  glyphs p (printValue col line oldValue newValue space).1
  = [mkGlyph 38 0 0 (pen_color p) (firstChar newValue);
     mkGlyph 38 0 1 (pen_color p) (firstChar oldValue)]
    ++ spec_render col line space oldValue newValue.
Proof.
  unfold printValue.
  pose proof (printChanged_glyphs (mkPen 38 0 2 (pen_color p))
                col line space oldValue newValue) as H.
  cbv zeta in H.
  destruct (printChanged col line space oldValue newValue)
    as [[[changed c] pOld] pNew].
  unfold trailing in H. cbn [fst] in H.
  destruct (printRest c line space pOld) as [erased c1]. cbn [fst snd] in H.
  destruct (printRest c1 line space pNew) as [printed c2].
  cbn [fst snd] in *. simpl in *. now rewrite H.
Qed.

Lemma printValue_snd col line oldValue newValue space :
  (printValue col line oldValue newValue space).2 = newValue.
Proof.
  unfold printValue.
  destruct (printChanged col line space oldValue newValue)
    as [[[changed c] pOld] pNew].
  destruct (printRest c line space pOld) as [erased c1].
  destruct (printRest c1 line space pNew) as [printed c2].
  reflexivity.
Qed.

(** C4 at the example of the specification: drawn after ["10570"], the
    text ["10580"] makes [printValue] write four glyphs.  The differing
    digit is erased and redrawn at column 38 + 3 * 7, as the differential
    rendering asks; but first the glyph ['1'] is written twice from
    (38, 0) on, although the first characters are equal. *)
Theorem printValue_10570_10580 :
  glyphs (mkPen 0 0 0 SSD1306_WHITE) (printValue 38 0 "10570" "10580" 7).1
  = [mkGlyph 38 0 0 SSD1306_WHITE "1"; mkGlyph 38 0 1 SSD1306_WHITE "1";
     mkGlyph 59 0 0 SSD1306_BLACK "7"; mkGlyph 59 0 0 SSD1306_WHITE "8"]
  ∧ spec_render 38 0 7 "10570" "10580"
    = [mkGlyph 59 0 0 SSD1306_BLACK "7"; mkGlyph 59 0 0 SSD1306_WHITE "8"].
Proof. split; reflexivity. Qed.

(** * The frequency line (C5, C9) *)

(** A 16-bit value always fills the five columns, so [freqField] reads
    [tmp] inside the rendering only. *)
Lemma sprintf_5u_length n :
  0 <= n < 65536 -> String.length (sprintf_5u n) = 5%nat.
Proof.
  intros Hn. unfold sprintf_5u, utoa. cbn [utoa_aux].
  assert (n / 10 / 10 / 10 / 10 / 10 = 0) as H5.
  { rewrite !Z.div_div by lia. apply Z.div_small. lia. }
  destruct (n / 10 =? 0); [reflexivity|].
  destruct (n / 10 / 10 =? 0); [reflexivity|].
  destruct (n / 10 / 10 / 10 =? 0); [reflexivity|].
  destruct (n / 10 / 10 / 10 / 10 =? 0); [reflexivity|].
  rewrite H5. reflexivity.
Qed.

Lemma showFrequency_spec s b :
  getBand s = Some b ->
  let field := freqField (Band.bandType b) (currentFrequency s) in
  let buffer := if bfoOn s then ">" +:+ field.1 +:+ "<" else field.1 in
  let label := modeLabel (currentFrequency s) (currentMode s) in
  ∃ s', showFrequency s = Some s'
    ∧ displayBuffer s' = buffer ∧ oldFreq s' = buffer
    ∧ oldMode s' = label ∧ oldUnit s' = field.2
    ∧ currentMode s' = currentMode s
    ∧ currentFrequency s' = currentFrequency s
    ∧ log s'
      = log s ++ map Oled ((printValue 38 0 (oldFreq s) buffer 7).1
                           ++ (printValue 0 0 (oldMode s) label 7).1
                           ++ (printValue 0 0 (oldUnit s) field.2 7).1
                           ++ [Display]).
Proof.
  intros Hb. cbv zeta. unfold showFrequency. rewrite Hb.
  cbn [mbind option_bind].
  destruct (freqField _ _) as [freq unit]. cbv zeta. cbn [fst snd].
  state_simpl.
  set (buffer := if bfoOn s then _ else _).
  set (label := modeLabel _ _).
  pose proof (printValue_snd 38 0 (oldFreq s) buffer 7) as E1.
  pose proof (printValue_snd 0 0 (oldMode s) label 7) as E2.
  pose proof (printValue_snd 0 0 (oldUnit s) unit 7) as E3.
  destruct (printValue 38 0 (oldFreq s) buffer 7) as [cs1 old1].
  state_simpl.
  destruct (printValue 0 0 (oldMode s) label 7) as [cs2 old2].
  state_simpl.
  destruct (printValue 0 0 (oldUnit s) unit 7) as [cs3 old3].
  cbn [fst snd] in *. subst. eexists. split; [reflexivity|].
  state_simpl. repeat split.
  rewrite !map_app, <- !app_assoc. reflexivity.
Qed.

(** C5, as the code has it.  On an FM band the value 10570 is shown as
    ["105.70"] with unit ["MHz"].  On an SW band the value 7200 is shown as
    [" 7200"], padded on the left with a blank, with unit ["KHz"], and the
    mode label is ["AM "] when the stored mode is AM.  With [bfoOn] the
    field is wrapped in [>] and [<]. *)
Theorem frequency_field_format (s : State) (b : Band.t) :
  getBand s = Some b ->
  ∃ s', showFrequency s = Some s'
    ∧ (Band.bandType b = FM_BAND_TYPE -> currentFrequency s = 10570 ->
       freqField (Band.bandType b) (currentFrequency s) = ("105.70", "MHz")
       ∧ oldUnit s' = "MHz"
       ∧ (bfoOn s = false -> displayBuffer s' = "105.70")
       ∧ (bfoOn s = true -> displayBuffer s' = ">105.70<"))
    ∧ (Band.bandType b = SW_BAND_TYPE -> currentFrequency s = 7200 ->
       freqField (Band.bandType b) (currentFrequency s) = (" 7200", "KHz")
       ∧ oldUnit s' = "KHz"
       ∧ (bfoOn s = false -> displayBuffer s' = " 7200")
       ∧ (bfoOn s = true -> displayBuffer s' = "> 7200<")
       ∧ (currentMode s = AM -> oldMode s' = "AM ")).
Proof.
  intros Hb.
  destruct (showFrequency_spec s b Hb)
    as (s' & H & Hbuf & _ & Hmode & Hunit & _).
  exists s'. split; [assumption|]. rewrite Hbuf, Hmode, Hunit. split.
  - intros -> ->. split; [reflexivity|]. split; [reflexivity|].
    split; now intros ->.
  - intros -> ->. split; [reflexivity|]. split; [reflexivity|].
    split; [now intros ->|]. split; now intros ->.
Qed.

(** C5, as the specification words it, fails on the 40 m band at 7200 kHz:
    the field shown is [" 7200"], not ["07200"]; and in mode LSB the label
    is ["LSB"], not ["AM "]. *)
Lemma frequency_field_not_zero_padded :
  (∃ s', showFrequency (on40m AM) = Some s'
         ∧ currentBandType (on40m AM) = Some SW_BAND_TYPE
         ∧ displayBuffer s' = " 7200" ∧ displayBuffer s' ≠ "07200")
  ∧ (∃ s', showFrequency (on40m LSB) = Some s'
           ∧ oldMode s' = "LSB" ∧ oldMode s' ≠ "AM ").
Proof.
  split; eexists; (split; [vm_compute; reflexivity|]); simpl;
    repeat split; discriminate.
Qed.

(** C9.  [showFrequency] hands the renderer the label ["LW  "] whenever
    [currentFrequency] is below 520, whatever [currentMode] is, and the
    text of [bandModeDesc] for [currentMode] otherwise; it leaves
    [currentMode] as it was. *)
Theorem lw_label_override (s : State) :
  bandIdx_ok s ->
  ∃ s' label,
    showFrequency s = Some s'
    ∧ oldMode s' = label
    ∧ (∃ before after,
         log s' = log s ++ map Oled (before
                    ++ (printValue 0 0 (oldMode s) label 7).1 ++ after))
    ∧ (currentFrequency s < 520 -> label = "LW  ")
    ∧ (520 <= currentFrequency s -> label = bandModeDesc (currentMode s))
    ∧ currentMode s' = currentMode s.
Proof.
  intros [b Hb]%getBand_is_Some.
  destruct (showFrequency_spec s b Hb)
    as (s' & H & _ & _ & Hmode & _ & Hm & _ & Hlog).
  exists s', (modeLabel (currentFrequency s) (currentMode s)).
  split; [assumption|]. split; [assumption|]. split; [eauto|].
  unfold modeLabel. split; [|split; [|assumption]]; intros Hf.
  - now destruct (Z.ltb_spec (currentFrequency s) 520); [|lia].
  - now destruct (Z.ltb_spec (currentFrequency s) 520); [lia|].
Qed.

(** * The bandwidth button (C7) *)

(** [x++; if (x > lim) x = 0;] on a [uint8_t]. *)
Lemma u8_cycle x lim :
  0 <= x <= 255 -> 0 <= lim < 255 ->
  (if lim <? to_u8 (x + 1) then 0 else to_u8 (x + 1))
  = (if x <? lim then x + 1 else 0).
Proof.
  intros Hx Hl. unfold to_u8.
  destruct (Z.eq_dec x 255) as [->|Hne].
  - change ((255 + 1) mod 256) with 0.
    destruct (Z.ltb_spec lim 0), (Z.ltb_spec 255 lim); lia.
  - rewrite Z.mod_small by lia.
    destruct (Z.ltb_spec lim (x + 1)), (Z.ltb_spec x lim); lia.
Qed.

Lemma bandwidthButton_ssb s :
  currentMode s = LSB ∨ currentMode s = USB -> 0 <= bwIdxSSB s <= 255 ->
  let n := if bwIdxSSB s <? 5 then bwIdxSSB s + 1 else 0 in
  bandwidthButton s
  = s |> set_bwIdxSSB n
      |> set_log (log s ++
           [Tuner (SetSSBAudioBandwidth n);
            Tuner (SetSBBSidebandCutoffFilter
                     (if decide (n = 0 ∨ n = 4 ∨ n = 5) then 0 else 1));
            Delay MIN_ELAPSED_TIME]).
Proof.
  intros Hm Hx n. pose proof (u8_cycle (bwIdxSSB s) 5 Hx ltac:(lia)) as Hn.
  fold n in Hn. revert Hn. generalize n. clear n. intros n Hn.
  unfold bandwidthButton. rewrite decide_True by assumption. simpl.
  destruct (5 <? to_u8 (bwIdxSSB s + 1)); simpl; subst n;
    case_decide; try solve [exfalso; intuition auto];
    destruct s; state_norm; rewrite <- !app_assoc; reflexivity.
Qed.

Lemma bandwidthButton_am s :
  currentMode s = AM -> 0 <= bwIdxAM s <= 255 ->
  let n := if bwIdxAM s <? 6 then bwIdxAM s + 1 else 0 in
  bandwidthButton s
  = s |> set_bwIdxAM n
      |> set_log (log s ++ [Tuner (SetBandwidth n 1); Delay MIN_ELAPSED_TIME]).
Proof.
  intros Hm Hx n. pose proof (u8_cycle (bwIdxAM s) 6 Hx ltac:(lia)) as Hn.
  fold n in Hn. revert Hn. generalize n. clear n. intros n Hn.
  unfold bandwidthButton.
  rewrite decide_False by (rewrite Hm; intros [|]; discriminate).
  rewrite decide_True by assumption. simpl.
  destruct (6 <? to_u8 (bwIdxAM s + 1)); simpl; subst n;
    destruct s; state_norm; rewrite <- !app_assoc; reflexivity.
Qed.

(** C7.  A pass of [loop] that serves the bandwidth button (encoder at
    rest, no RSSI poll).  In LSB or USB, [bwIdxSSB] goes up by one and wraps
    from 5 to 0, the tuner receives the new index as SSB audio bandwidth and
    then the sideband cutoff filter, 0 exactly when the new index is 0, 4
    or 5 and 1 otherwise.  In AM, [bwIdxAM] goes up by one and wraps from 6
    to 0 and the tuner receives it as AM bandwidth.  From [bwIdxSSB = 5]
    the index becomes 0 and the cutoff filter is set to 0. *)
Theorem bandwidth_button (i : Inputs) (s : State) :
  encoderCount i = 0 -> rssiDue i = false ->
  served i = Some BANDWIDTH_BUTTON ->
  bandIdx_ok s -> 0 <= bwIdxSSB s <= 255 -> 0 <= bwIdxAM s <= 255 ->
  ∃ s', loop i s = Some s'
    ∧ (currentMode s = LSB ∨ currentMode s = USB ->
       bwIdxSSB s' = (if bwIdxSSB s <? 5 then bwIdxSSB s + 1 else 0)
       ∧ bwIdxAM s' = bwIdxAM s
       ∧ ∃ sbcutflt,
           tunerCmds (log s')
           = tunerCmds (log s) ++ [SetSSBAudioBandwidth (bwIdxSSB s');
                                   SetSBBSidebandCutoffFilter sbcutflt]
           ∧ (sbcutflt = 0 ∨ sbcutflt = 1)
           ∧ (sbcutflt = 0 <->
              bwIdxSSB s' = 0 ∨ bwIdxSSB s' = 4 ∨ bwIdxSSB s' = 5)
           ∧ (bwIdxSSB s = 5 -> bwIdxSSB s' = 0 ∧ sbcutflt = 0))
    ∧ (currentMode s = AM ->
       bwIdxAM s' = (if bwIdxAM s <? 6 then bwIdxAM s + 1 else 0)
       ∧ bwIdxSSB s' = bwIdxSSB s
       ∧ tunerCmds (log s')
         = tunerCmds (log s) ++ [SetBandwidth (bwIdxAM s') 1]).
Proof.
  intros He Hr Hsv Hok Hssb Ham.
  assert (checkButtons i s = Some (bandwidthButton s)) as Hb
    by now rewrite checkButtons_served, Hsv.
  assert (bandIdx_ok (bandwidthButton s)) as Hok1.
  { unfold bandwidthButton. repeat case_decide; repeat case_match; exact Hok. }
  destruct (loop_buttons_only i s _ He Hr Hb Hok1) as (cs & s2 & Hd & ->).
  eexists. split; [reflexivity|].
  destruct Hd as (b & p & f & m & u & ->). split.
  - intros Hm. rewrite (bandwidthButton_ssb s Hm Hssb). simpl.
    split; [reflexivity|]. split; [reflexivity|].
    eexists. split; [|split; [|split]].
    + rewrite !tunerCmds_app, tunerCmds_oled. simpl.
      rewrite !app_nil_r. reflexivity.
    + case_decide; auto.
    + case_decide; split; auto; try discriminate. intros; contradiction.
    + intros ->. split; reflexivity.
  - intros Hm. rewrite (bandwidthButton_am s Hm Ham). simpl.
    split; [reflexivity|]. split; [reflexivity|].
    rewrite !tunerCmds_app, tunerCmds_oled. simpl.
    rewrite !app_nil_r. reflexivity.
Qed.

(** * The step button (C8) *)

Lemma getBand_same s s' :
  band s' = band s -> bandIdx s' = bandIdx s -> getBand s' = getBand s.
Proof. unfold getBand. now intros -> ->. Qed.

Lemma stepSwitch_tuning s b :
  currentMode s ≠ FM -> bfoActive s = false -> getBand s = Some b ->
  stepSwitch s
  = Some (s |> set_currentStep (nextStep (currentStep s))
            |> set_band (<[Z.to_nat (bandIdx s) :=
                             Band.mk (Band.bandType b) (Band.minimumFreq b)
                               (Band.maximumFreq b) (Band.currentFreq b)
                               (nextStep (currentStep s))]> (band s))
            |> set_log (log s ++
                 [Tuner (SetFrequencyStep (nextStep (currentStep s)));
                  Delay MIN_ELAPSED_TIME])).
Proof.
  intros Hm Hbfo Hb. unfold stepSwitch, bfoActive in *.
  rewrite decide_False by assumption. rewrite Hbfo. unfold nextStep.
  destruct (currentStep s =? 1); [|destruct (currentStep s =? 5)];
    (erewrite getBand_same; [rewrite Hb|reflexivity..]); simpl;
    destruct s; state_norm; rewrite <- !app_assoc; reflexivity.
Qed.

Lemma stepSwitch_None s :
  currentMode s ≠ FM -> bfoActive s = false -> getBand s = None ->
  stepSwitch s = None.
Proof.
  intros Hm Hbfo Hb. unfold stepSwitch, bfoActive in *.
  rewrite decide_False by assumption. rewrite Hbfo.
  destruct (currentStep s =? 1); [|destruct (currentStep s =? 5)];
    (erewrite getBand_same; [rewrite Hb|reflexivity..]); reflexivity.
Qed.

Lemma stepSwitch_fm s :
  currentMode s = FM ->
  stepSwitch s
  = Some (s |> set_fmStereo (negb (fmStereo s))
            |> set_log (log s ++ [Tuner (if negb (fmStereo s)
                                         then SetFmStereoOn
                                         else SetFmStereoOff)])).
Proof.
  intros Hm. unfold stepSwitch. rewrite decide_True by assumption.
  destruct s as [? ? ? ? []]; reflexivity.
Qed.

Lemma stepSwitch_bfo s :
  currentMode s ≠ FM -> bfoActive s = true ->
  stepSwitch s
  = Some (s |> set_currentBFOStep (if currentBFOStep s =? 25 then 10 else 25)
            |> set_log (log s ++ [Delay MIN_ELAPSED_TIME])).
Proof.
  intros Hm Hbfo. unfold stepSwitch, bfoActive in *.
  rewrite decide_False by assumption. rewrite Hbfo.
  destruct s; reflexivity.
Qed.

Lemma stepSwitch_ok s s' : bandIdx_ok s -> stepSwitch s = Some s' -> bandIdx_ok s'.
Proof.
  intros Hok H. destruct (getBand_is_Some s Hok) as [b Hb].
  destruct (decide (currentMode s = FM)) as [Hm|Hm].
  - rewrite (stepSwitch_fm s Hm) in H. now simplify_eq.
  - destruct (bfoActive s) eqn:Hbfo.
    + rewrite (stepSwitch_bfo s Hm Hbfo) in H. now simplify_eq.
    + rewrite (stepSwitch_tuning s b Hm Hbfo Hb) in H. simplify_eq.
      destruct Hok. split; simpl; [now rewrite length_insert|assumption].
Qed.

Lemma stepSwitch_is_Some s : bandIdx_ok s -> is_Some (stepSwitch s).
Proof.
  intros Hok. destruct (getBand_is_Some s Hok) as [b Hb].
  destruct (decide (currentMode s = FM)) as [Hm|Hm].
  - rewrite (stepSwitch_fm s Hm). eauto.
  - destruct (bfoActive s) eqn:Hbfo.
    + rewrite (stepSwitch_bfo s Hm Hbfo). eauto.
    + rewrite (stepSwitch_tuning s b Hm Hbfo Hb). eauto.
Qed.

(** What [bandUp] and [bandDown] do with the step: the one in use goes into
    the entry being left, the one of the entry being entered comes into
    use. *)
Lemma band_switch_step s s' :
  bandUp s = Some s' ∨ bandDown s = Some s' ->
  (∃ b, band s' !! Z.to_nat (bandIdx s) = Some b
        ∧ Band.currentStep b = currentStep s)
  ∧ (∃ b', getBand s' = Some b' ∧ currentStep s' = to_u8 (Band.currentStep b')).
Proof.
  intros H.
  assert (∃ i b, getBand s = Some b ∧ useBand (switchTo i b s) = Some s')
    as (i & b & Hb & Hu).
  { destruct H as [H|H].
    - destruct (getBand s) as [b|] eqn:Hb.
      + rewrite (bandUp_unfold s b Hb) in H. eauto.
      + unfold bandUp, saveBand in H. rewrite Hb in H. discriminate.
    - destruct (getBand s) as [b|] eqn:Hb.
      + rewrite (bandDown_unfold s b Hb) in H. eauto.
      + unfold bandDown, saveBand in H. rewrite Hb in H. discriminate. }
  split.
  - eexists. split; [eapply switchTo_saved; eassumption|reflexivity].
  - pose proof (useBand_band _ _ Hu) as [Hband Hidx].
    unfold useBand in Hu.
    destruct (getBand (switchTo i b s)) as [b'|] eqn:Hb'; [|discriminate].
    exists b'. split.
    + rewrite <- Hb'. now apply getBand_same.
    + simpl in Hu. injection Hu as <-. reflexivity.
Qed.

(** C8.  A pass of [loop] that serves the step button (encoder at rest, no
    RSSI poll).  Outside FM and with BFO adjustment not active,
    [currentStep] moves along 1, 5, 10, 1, the tuner receives the new step,
    and the new step is stored in the entry of the current band while every
    other entry keeps its own.  In FM the button flips [fmStereo] and tells
    the tuner; in LSB or USB with [bfoOn] it flips [currentBFOStep] between
    25 and 10.  [bandUp] and [bandDown] store [currentStep] in the entry
    they leave and take the step of the entry they enter. *)
Theorem step_button (i : Inputs) (s : State) :
  encoderCount i = 0 -> rssiDue i = false ->
  served i = Some STEP_SWITCH -> bandIdx_ok s ->
  ∃ s', loop i s = Some s'
    ∧ (currentMode s ≠ FM -> bfoActive s = false ->
       (currentStep s = 1 -> currentStep s' = 5)
       ∧ (currentStep s = 5 -> currentStep s' = 10)
       ∧ (currentStep s = 10 -> currentStep s' = 1)
       ∧ currentStep s' = nextStep (currentStep s)
       ∧ tunerCmds (log s')
         = tunerCmds (log s) ++ [SetFrequencyStep (currentStep s')]
       ∧ (∃ b, getBand s' = Some b ∧ Band.currentStep b = currentStep s')
       ∧ (∀ j, j ≠ Z.to_nat (bandIdx s) -> band s' !! j = band s !! j)
       ∧ bandIdx s' = bandIdx s)
    ∧ (currentMode s = FM ->
       fmStereo s' = negb (fmStereo s)
       ∧ tunerCmds (log s')
         = tunerCmds (log s) ++ [if fmStereo s' then SetFmStereoOn
                                 else SetFmStereoOff]
       ∧ currentStep s' = currentStep s ∧ band s' = band s)
    ∧ (currentMode s ≠ FM -> bfoActive s = true ->
       (currentBFOStep s = 25 -> currentBFOStep s' = 10)
       ∧ (currentBFOStep s = 10 -> currentBFOStep s' = 25)
       ∧ currentStep s' = currentStep s ∧ band s' = band s
       ∧ tunerCmds (log s') = tunerCmds (log s))
    ∧ (∀ t, bandUp s = Some t ∨ bandDown s = Some t ->
       (∃ b, band t !! Z.to_nat (bandIdx s) = Some b
             ∧ Band.currentStep b = currentStep s)
       ∧ (∃ b', getBand t = Some b'
                ∧ currentStep t = to_u8 (Band.currentStep b'))).
Proof.
  intros He Hr Hsv Hok.
  destruct (stepSwitch_is_Some s Hok) as [s1 H1].
  assert (checkButtons i s = Some s1) as Hb
    by now rewrite checkButtons_served, Hsv.
  pose proof (stepSwitch_ok _ _ Hok H1) as Hok1.
  destruct (loop_buttons_only i s _ He Hr Hb Hok1) as (cs & s2 & Hd & ->).
  eexists. split; [reflexivity|].
  destruct Hd as (db & p & f & m & u & ->).
  destruct (getBand_is_Some s Hok) as [b Hb0].
  split; [|split; [|split]].
  - intros Hm Hbfo. rewrite (stepSwitch_tuning s b Hm Hbfo Hb0) in H1.
    injection H1 as <-. simpl.
    split; [now intros ->|]. split; [now intros ->|]. split; [now intros ->|].
    split; [reflexivity|]. split.
    { rewrite !tunerCmds_app, tunerCmds_oled. simpl.
      now rewrite !app_nil_r. }
    split.
    { eexists. split.
      - unfold getBand in *. simpl.
        destruct (bandIdx s <? 0); [discriminate|].
        apply list_lookup_insert_eq. now apply lookup_lt_Some in Hb0.
      - reflexivity. }
    split; [|reflexivity].
    intros j Hj. now apply list_lookup_insert_ne.
  - intros Hm. rewrite (stepSwitch_fm s Hm) in H1. injection H1 as <-. simpl.
    split; [reflexivity|]. split; [|split; reflexivity].
    rewrite !tunerCmds_app, tunerCmds_oled. simpl. now rewrite !app_nil_r.
  - intros Hm Hbfo. rewrite (stepSwitch_bfo s Hm Hbfo) in H1.
    injection H1 as <-. simpl.
    split; [now intros ->|]. split; [now intros ->|].
    split; [reflexivity|]. split; [reflexivity|].
    rewrite !tunerCmds_app, tunerCmds_oled. simpl. now rewrite !app_nil_r.
  - intros t Ht. now apply band_switch_step.
Qed.

(** * [loop] refines the mode machine *)

Ltac untouched_tac :=
  unfold untouched, radio; simpl;
  rewrite ?patchLoads_app, ?patchLoads_oled; simpl;
  repeat split; auto with lia.

Lemma untouched_refl s : untouched s s.
Proof. untouched_tac. Qed.

Lemma untouched_trans s1 s2 s3 :
  untouched s1 s2 -> untouched s2 s3 -> untouched s1 s3.
Proof.
  unfold untouched. intros (-> & -> & -> & ->) (-> & -> & -> & ->). auto.
Qed.

Lemma untouched_ok s s' : untouched s s' -> bandIdx_ok s -> bandIdx_ok s'.
Proof. intros (_ & Hb & Hi & _). unfold bandIdx_ok. now rewrite Hb, Hi. Qed.

Lemma untouched_getBand s s' : untouched s s' -> getBand s' = getBand s.
Proof. intros (_ & Hb & Hi & _). now apply getBand_same. Qed.

Lemma encoderMoved_untouched i s : untouched s (encoderMoved i s).
Proof.
  unfold encoderMoved. repeat case_match; untouched_tac.
Qed.

Lemma checkRSSI_untouched i s : untouched s (checkRSSI i s).
Proof.
  unfold checkRSSI. repeat case_match; untouched_tac.
Qed.

Lemma delay_untouched ms s : untouched s (delay ms s).
Proof. untouched_tac. Qed.

Lemma displayOnly_untouched cs s s' : displayOnly cs s s' -> untouched s s'.
Proof. intros (b & p & f & m & u & ->). untouched_tac. Qed.

Lemma bandwidthButton_untouched s : untouched s (bandwidthButton s).
Proof.
  unfold bandwidthButton. repeat case_decide; repeat case_match; untouched_tac.
Qed.

Lemma volUpButton_untouched i s : untouched s (volUpButton i s).
Proof. untouched_tac. Qed.

Lemma volDownButton_untouched i s : untouched s (volDownButton i s).
Proof. untouched_tac. Qed.

Lemma agcSwitch_untouched s : untouched s (agcSwitch s).
Proof. untouched_tac. Qed.

(** What follows the button scan leaves the mode state alone. *)
Lemma loop_after_buttons i s s' :
  loop i s = Some s' ->
  ∃ s1, checkButtons i (encoderMoved i s) = Some s1 ∧ untouched s1 s'.
Proof.
  unfold loop. intros H.
  destruct (checkButtons i (encoderMoved i s)) as [s1|]; [|discriminate].
  simpl in H. destruct (frequencyChanged s1) as [s2|] eqn:H2; [|discriminate].
  injection H as <-. exists s1. split; [reflexivity|].
  destruct (frequencyChanged_displayOnly _ _ H2) as [cs Hd].
  eapply untouched_trans; [exact (displayOnly_untouched _ _ _ Hd)|].
  eapply untouched_trans; [apply checkRSSI_untouched|apply delay_untouched].
Qed.

Lemma loop_is_Some i s s1 :
  checkButtons i (encoderMoved i s) = Some s1 -> is_Some (getBand s1) ->
  is_Some (loop i s).
Proof.
  intros H1 Hb. unfold loop. rewrite H1. simpl.
  destruct (frequencyChanged_is_Some s1 Hb) as [s2 ->]. simpl. eauto.
Qed.

Lemma useBand_radio s b :
  getBand s = Some b ->
  ∃ s', useBand s = Some s'
    ∧ radio s' = usedBand (isFM (Band.bandType b)) (radio s)
    ∧ band s' = band s ∧ bandIdx s' = bandIdx s
    ∧ patchLoads (log s') = patchLoads (log s).
Proof.
  intros Hb. unfold useBand. rewrite Hb. simpl. eexists. split; [reflexivity|].
  unfold isFM, radio, usedBand. destruct (Band.bandType b);
    simpl; repeat case_decide; try discriminate;
    try (exfalso; intuition discriminate);
    destruct (ssbLoaded s) eqn:Hl; simpl; rewrite ?Hl; simpl;
    rewrite ?patchLoads_app; simpl; repeat split; auto with lia.
Qed.

Lemma saveBand_radio s s' :
  saveBand s = Some s' ->
  radio s' = radio s ∧ bandIdx s' = bandIdx s ∧ log s' = log s
  ∧ currentBandType s' = currentBandType s.
Proof.
  intros H. pose proof H as (b & Hb & ->)%saveBand_spec.
  repeat split. unfold currentBandType.
  now rewrite (saveBand_getBand _ _ _ H Hb), Hb.
Qed.

Lemma bfoSwitch_radio i s :
  band (bfoSwitch i s) = band s ∧ bandIdx (bfoSwitch i s) = bandIdx s
  ∧ (∀ button, button = Some BFO_SWITCH ->
     radioStep button (radio s) 0 (radio (bfoSwitch i s)))
  ∧ patchLoads (log (bfoSwitch i s)) = patchLoads (log s).
Proof.
  unfold bfoSwitch, radio.
  repeat case_decide; destruct (bfoOn s) eqn:E; simpl;
    rewrite ?patchLoads_app, ?E; simpl; repeat split; auto with lia;
    intros button Hbutton;
    first [apply rs_same
          |apply (rs_bfo _ _ _ true); assumption
          |apply (rs_bfo _ _ _ false); assumption].
Qed.

Lemma stepSwitch_untouched s s' :
  stepSwitch s = Some s' ->
  radio s' = radio s ∧ bandIdx s' = bandIdx s
  ∧ patchLoads (log s') = patchLoads (log s)
  ∧ currentBandType s' = currentBandType s.
Proof.
  intros H. destruct (decide (currentMode s = FM)) as [Hm|Hm].
  { rewrite (stepSwitch_fm s Hm) in H. injection H as <-.
    unfold currentBandType, getBand. untouched_tac. now destruct (fmStereo s). }
  destruct (bfoActive s) eqn:Hbfo.
  { rewrite (stepSwitch_bfo s Hm Hbfo) in H. injection H as <-.
    unfold currentBandType, getBand. untouched_tac. }
  destruct (getBand s) as [b|] eqn:Hb.
  - rewrite (stepSwitch_tuning s b Hm Hbfo Hb) in H. injection H as <-.
    unfold currentBandType. rewrite Hb. unfold getBand in *. untouched_tac.
    destruct (bandIdx s <? 0); [discriminate|].
    rewrite list_lookup_insert_eq by now apply lookup_lt_Some in Hb.
    reflexivity.
  - rewrite (stepSwitch_None s Hm Hbfo Hb) in H. discriminate.
Qed.

Lemma useBand_inv s s' :
  useBand s = Some s' ->
  ∃ b, getBand s = Some b
    ∧ radio s' = usedBand (isFM (Band.bandType b)) (radio s)
    ∧ band s' = band s ∧ bandIdx s' = bandIdx s
    ∧ patchLoads (log s') = patchLoads (log s).
Proof.
  intros H. destruct (getBand s) as [b|] eqn:Hb.
  - destruct (useBand_radio s b Hb) as (s'' & H' & Hr).
    rewrite H in H'. injection H' as <-. eauto.
  - unfold useBand in H. rewrite Hb in H. discriminate.
Qed.

Lemma band_switch_radio s s' :
  bandUp s = Some s' ∨ bandDown s = Some s' ->
  ∃ fm, radio s' = usedBand fm (radio s)
      ∧ patchLoads (log s') = patchLoads (log s).
Proof.
  intros H.
  assert (∃ s1, saveBand s = Some s1 ∧ ∃ i, useBand (set_bandIdx i s1) = Some s')
    as (s1 & H1 & i & Hu).
  { unfold bandUp, bandDown in H.
    destruct (saveBand s) as [s1|]; [|destruct H; discriminate].
    exists s1. split; [reflexivity|]. simpl in H.
    destruct H as [H|H]; case_match; eauto. }
  apply saveBand_radio in H1 as (Hr & _ & Hl & _).
  apply useBand_inv in Hu as (b & _ & Hr' & _ & _ & Hp).
  exists (isFM (Band.bandType b)). split.
  - rewrite Hr'. f_equal. exact Hr.
  - rewrite Hp. simpl. now rewrite Hl.
Qed.

(** The mode switch, before it saves the band and calls [useBand]. *)
Lemma modeSwitch_radio s t :
  currentBandType s = Some t -> currentMode s ≠ FM ->
  ∃ s', modeSwitch s = Some s'
    ∧ radio s' = usedBand (isFM t) (modePressed (radio s)).1
    ∧ patchLoads (log s')
      = ((modePressed (radio s)).2 + patchLoads (log s))%nat
    ∧ currentBandType s' = Some t
    ∧ bandIdx s' = bandIdx s
    ∧ length (band s') = length (band s).
Proof.
  intros Ht Hm. unfold modeSwitch. rewrite decide_True by assumption.
  match goal with
  | |- context [saveBand ?x] => set (s1 := x)
  end.
  assert (radio s1 = (modePressed (radio s)).1
          ∧ patchLoads (log s1)
            = ((modePressed (radio s)).2 + patchLoads (log s))%nat
          ∧ band s1 = band s ∧ bandIdx s1 = bandIdx s) as (Hr & Hp & Hb & Hi).
  { subst s1. unfold radio, modePressed.
    destruct (currentMode s); try congruence; simpl;
      rewrite ?patchLoads_app; simpl; repeat split; lia. }
  assert (currentBandType s1 = Some t) as Ht1.
  { unfold currentBandType. now rewrite (getBand_same _ _ Hb Hi). }
  clearbody s1.
  destruct (getBand s1) as [b|] eqn:Hb1;
    [|unfold currentBandType in Ht1; rewrite Hb1 in Ht1; discriminate].
  assert (Band.bandType b = t) as Hbt.
  { unfold currentBandType in Ht1. rewrite Hb1 in Ht1. now injection Ht1. }
  destruct (saveBand s1) as [s2|] eqn:H2;
    [|unfold saveBand in H2; rewrite Hb1 in H2; discriminate].
  simpl. pose proof (saveBand_getBand _ _ _ H2 Hb1) as Hb2.
  pose proof (saveBand_radio _ _ H2) as (Hr2 & Hi2 & Hl2 & Ht2).
  destruct (useBand_radio s2 _ Hb2) as (s' & Hu & Hr' & Hb' & Hi' & Hp').
  exists s'. split; [assumption|]. cbn [Band.bandType] in Hr'.
  split; [now rewrite Hr', Hr2, Hr, Hbt|].
  split; [now rewrite Hp', Hl2|].
  split; [|split].
  - unfold currentBandType. rewrite (getBand_same _ _ Hb' Hi'), Hb2.
    simpl. now rewrite Hbt.
  - now rewrite Hi', Hi2.
  - rewrite Hb'. apply saveBand_spec in H2 as (? & _ & ->). simpl.
    now rewrite length_insert, Hb.
Qed.

Lemma modeSwitch_inv s s' :
  modeSwitch s = Some s' ->
  (currentMode s = FM ∧ s' = s)
  ∨ (currentMode s ≠ FM
     ∧ ∃ t, currentBandType s = Some t
         ∧ radio s' = usedBand (isFM t) (modePressed (radio s)).1
         ∧ patchLoads (log s')
           = ((modePressed (radio s)).2 + patchLoads (log s))%nat).
Proof.
  intros H. destruct (decide (currentMode s = FM)) as [Hm|Hm].
  - left. unfold modeSwitch in H. rewrite decide_False in H by tauto.
    now injection H.
  - right. split; [assumption|].
    destruct (currentBandType s) as [t|] eqn:Ht.
    + destruct (modeSwitch_radio s t Ht Hm) as (s'' & H' & Hr & Hp & _).
      rewrite H in H'. injection H' as <-. eauto.
    + exfalso. unfold modeSwitch in H. rewrite decide_True in H by assumption.
      match type of H with
      | context [saveBand ?x] =>
          assert (getBand x = None) as Hn
      end.
      { unfold currentBandType in Ht.
        destruct (getBand s) eqn:Hb; [discriminate|]. rewrite <- Hb.
        apply getBand_same; repeat case_decide; reflexivity. }
      unfold saveBand in H. rewrite Hn in H. discriminate.
Qed.

Lemma checkButtons_radioStep i s s' :
  checkButtons i s = Some s' ->
  ∃ n, radioStep (served i) (radio s) n (radio s')
     ∧ patchLoads (log s') = (n + patchLoads (log s))%nat.
Proof.
  rewrite checkButtons_served.
  destruct (served i) as [[]|]; intros H; simplify_eq.
  - apply modeSwitch_inv in H as [[_ ->]|(Hm & t & _ & -> & ->)].
    + exists O. split; [apply rs_same|reflexivity].
    + eexists. split; [|reflexivity]. now apply rs_mode.
  - destruct (bandwidthButton_untouched s) as (-> & _ & _ & ->).
    exists O. split; [apply rs_same|reflexivity].
  - destruct (volUpButton_untouched i s) as (-> & _ & _ & ->).
    exists O. split; [apply rs_same|reflexivity].
  - destruct (volDownButton_untouched i s) as (-> & _ & _ & ->).
    exists O. split; [apply rs_same|reflexivity].
  - destruct (band_switch_radio s s' (or_introl H)) as (fm & -> & ->).
    exists O. split; [apply rs_band; auto|reflexivity].
  - destruct (band_switch_radio s s' (or_intror H)) as (fm & -> & ->).
    exists O. split; [apply rs_band; auto|reflexivity].
  - destruct (agcSwitch_untouched s) as (-> & _ & _ & ->).
    exists O. split; [apply rs_same|reflexivity].
  - apply stepSwitch_untouched in H as (-> & _ & -> & _).
    exists O. split; [apply rs_same|reflexivity].
  - destruct (bfoSwitch_radio i s) as (_ & _ & Hr & ->).
    exists O. split; [now apply Hr|reflexivity].
  - exists O. split; [apply rs_same|reflexivity].
Qed.

(** Every pass of [loop] is a move of the mode machine. *)
Lemma loop_radioStep i s s' :
  loop i s = Some s' ->
  ∃ n, radioStep (served i) (radio s) n (radio s')
     ∧ patchLoads (log s') = (n + patchLoads (log s))%nat.
Proof.
  intros (s1 & H1 & Hr' & _ & _ & Hp')%loop_after_buttons.
  apply checkButtons_radioStep in H1 as (n & Hstep & Hp).
  destruct (encoderMoved_untouched i s) as (Hr & _ & _ & Hp0).
  exists n. rewrite Hr', Hp', Hp, <- Hr, Hp0. auto.
Qed.

(** A pass that serves the mode switch outside FM. *)
Lemma loop_modeSwitch i s t :
  served i = Some MODE_SWITCH -> bandIdx_ok s ->
  currentBandType s = Some t -> currentMode s ≠ FM ->
  ∃ s', loop i s = Some s' ∧ bandIdx_ok s' ∧ currentBandType s' = Some t
    ∧ radio s' = usedBand (isFM t) (modePressed (radio s)).1
    ∧ patchLoads (log s')
      = ((modePressed (radio s)).2 + patchLoads (log s))%nat.
Proof.
  intros Hsv Hok Ht Hm.
  destruct (encoderMoved_untouched i s) as (Hr0 & Hb0 & Hi0 & Hp0).
  set (s0 := encoderMoved i s) in *.
  assert (currentBandType s0 = Some t) as Ht0
    by (unfold currentBandType; now rewrite (getBand_same _ _ Hb0 Hi0)).
  assert (currentMode s0 ≠ FM) as Hm0
    by (unfold radio in Hr0; now injection Hr0 as -> _ _).
  destruct (modeSwitch_radio s0 t Ht0 Hm0)
    as (s1 & H1 & Hr1 & Hp1 & Ht1 & Hi1 & Hl1).
  assert (checkButtons i s0 = Some s1) as Hc
    by now rewrite checkButtons_served, Hsv.
  assert (bandIdx_ok s1) as Hok1.
  { destruct Hok. unfold bandIdx_ok. now rewrite Hl1, Hi1, Hb0, Hi0. }
  destruct (loop_is_Some i s s1 Hc (getBand_is_Some _ Hok1)) as [s' H].
  exists s'. split; [assumption|].
  apply loop_after_buttons in H as (s1' & Hc' & Hu).
  fold s0 in Hc'. rewrite Hc in Hc'. injection Hc' as <-.
  pose proof Hu as (Hr & Hb & Hi & Hp).
  split; [eauto using untouched_ok|].
  split; [unfold currentBandType; now rewrite (getBand_same _ _ Hb Hi)|].
  split; [now rewrite Hr, Hr1, Hr0|now rewrite Hp, Hp1, Hr0, Hp0].
Qed.

(** * Where the patch load sits in the log *)

Ltac quiet_tac :=
  unfold quiet; simpl;
  first [exists []; split; [now rewrite app_nil_r|reflexivity]
        |eexists; split; [rewrite <- ?app_assoc; reflexivity|reflexivity]].

Lemma quiet_refl s : quiet s s.
Proof. quiet_tac. Qed.

Lemma quiet_trans s1 s2 s3 : quiet s1 s2 -> quiet s2 s3 -> quiet s1 s3.
Proof.
  intros (e1 & H1 & P1) (e2 & H2 & P2). exists (e1 ++ e2).
  rewrite H2, H1, <- app_assoc, patchLoads_app, P1, P2. auto.
Qed.

Lemma quiet_patchLoads s s' :
  quiet s s' -> patchLoads (log s') = patchLoads (log s).
Proof. intros (e & -> & P). rewrite patchLoads_app, P. lia. Qed.

Lemma encoderMoved_quiet i s :
  quiet s (encoderMoved i s)
  ∧ currentMode (encoderMoved i s) = currentMode s
  ∧ bwIdxSSB (encoderMoved i s) = bwIdxSSB s.
Proof.
  unfold encoderMoved. repeat case_match; (split; [quiet_tac|auto]).
Qed.

Lemma checkRSSI_quiet i s : quiet s (checkRSSI i s).
Proof. unfold checkRSSI. repeat case_match; quiet_tac. Qed.

Lemma delay_quiet ms s : quiet s (delay ms s).
Proof. quiet_tac. Qed.

Lemma displayOnly_quiet cs s s' : displayOnly cs s s' -> quiet s s'.
Proof.
  intros (b & p & f & m & u & ->). exists (map Oled cs).
  split; [reflexivity|apply patchLoads_oled].
Qed.

Lemma useBand_quiet s s' : useBand s = Some s' -> quiet s s'.
Proof.
  unfold useBand. destruct (getBand s) as [b|]; [simpl|discriminate].
  intros [= <-]. repeat case_decide; repeat case_match; quiet_tac.
Qed.

Lemma loop_after_buttons_quiet i s s' :
  loop i s = Some s' ->
  ∃ s1, checkButtons i (encoderMoved i s) = Some s1 ∧ quiet s1 s'.
Proof.
  unfold loop. intros H.
  destruct (checkButtons i (encoderMoved i s)) as [s1|]; [|discriminate].
  simpl in H. destruct (frequencyChanged s1) as [s2|] eqn:H2; [|discriminate].
  injection H as <-. exists s1. split; [reflexivity|].
  destruct (frequencyChanged_displayOnly _ _ H2) as [cs Hd].
  eapply quiet_trans; [exact (displayOnly_quiet _ _ _ Hd)|].
  eapply quiet_trans; [apply checkRSSI_quiet|apply delay_quiet].
Qed.

Lemma modeSwitch_log s s' :
  modeSwitch s = Some s' ->
  ∃ after,
    log s' = log s ++ (if decide (currentMode s = AM)
                       then loadSSB_events (bwIdxSSB s) else []) ++ after
    ∧ patchLoads after = O.
Proof.
  unfold modeSwitch. case_decide as Hm.
  - match goal with
    | |- context [saveBand ?x] => set (s1 := x)
    end.
    assert (log s1 = log s ++ (if decide (currentMode s = AM)
                               then loadSSB_events (bwIdxSSB s) else []))
      as Hl.
    { subst s1. destruct (currentMode s); try congruence; simpl;
        rewrite <- ?app_assoc, ?app_nil_r; reflexivity. }
    clearbody s1. intros H.
    destruct (saveBand s1) as [s2|] eqn:H2; [simpl in H|discriminate].
    apply saveBand_radio in H2 as (_ & _ & Hl2 & _).
    apply useBand_quiet in H as (after & H & P).
    exists after. split; [|assumption].
    now rewrite H, Hl2, Hl, <- app_assoc.
  - intros [= <-]. exists []. split; [|reflexivity].
    assert (currentMode s ≠ AM) as Hne.
    { intros E. destruct (decide (currentMode s = FM)); [congruence|tauto]. }
    rewrite decide_False by assumption.
    now rewrite !app_nil_r.
Qed.

(** A pass that serves the mode switch in AM runs the patch load once; in
    any other mode it runs none. *)
Lemma loop_modeSwitch_log i s s' :
  served i = Some MODE_SWITCH -> loop i s = Some s' ->
  (currentMode s = AM -> patchLoadRun s s')
  ∧ (currentMode s ≠ AM -> quiet s s').
Proof.
  intros Hsv (s1 & H1 & Hq)%loop_after_buttons_quiet.
  rewrite checkButtons_served, Hsv in H1.
  apply modeSwitch_log in H1 as (after & Hl & P).
  destruct (encoderMoved_quiet i s) as ((before & Hl0 & P0) & Hm0 & Hbw0).
  destruct Hq as (rest & Hl' & P'). rewrite Hm0, Hbw0 in Hl. split.
  - intros Hm. rewrite decide_True in Hl by assumption.
    exists before, (after ++ rest). split; [|split; [assumption|]].
    + now rewrite Hl', Hl, Hl0, <- !app_assoc.
    + now rewrite patchLoads_app, P, P'.
  - intros Hm. rewrite decide_False in Hl by assumption.
    exists (before ++ after ++ rest). split.
    + now rewrite Hl', Hl, Hl0, <- !app_assoc.
    + now rewrite !patchLoads_app, P0, P, P'.
Qed.

(** * [loop] never indexes outside the band table *)

Lemma modeSwitch_total s :
  bandIdx_ok s -> ∃ s', modeSwitch s = Some s' ∧ bandIdx_ok s'.
Proof.
  intros Hok. destruct (decide (currentMode s = FM)) as [Hm|Hm].
  - exists s. split; [|assumption]. unfold modeSwitch.
    now rewrite decide_False by tauto.
  - destruct (getBand_is_Some s Hok) as [b Hb].
    destruct (modeSwitch_radio s (Band.bandType b)) as (s' & H & _ & _ & _ & Hi & Hl);
      [unfold currentBandType; now rewrite Hb|assumption|].
    exists s'. split; [assumption|].
    destruct Hok. unfold bandIdx_ok. now rewrite Hl, Hi.
Qed.

Lemma checkButtons_total i s :
  bandIdx_ok s -> ∃ s', checkButtons i s = Some s' ∧ bandIdx_ok s'.
Proof.
  intros Hok. rewrite checkButtons_served.
  destruct (served i) as [[]|].
  - now apply modeSwitch_total.
  - eauto using untouched_ok, bandwidthButton_untouched.
  - eauto using untouched_ok, volUpButton_untouched.
  - eauto using untouched_ok, volDownButton_untouched.
  - destruct (bandUp_is_Some s Hok) as [s' H]. eauto using bandUp_ok.
  - destruct (bandDown_is_Some s Hok) as [s' H]. eauto using bandDown_ok.
  - eauto using untouched_ok, agcSwitch_untouched.
  - destruct (stepSwitch_is_Some s Hok) as [s' H]. eauto using stepSwitch_ok.
  - eexists. split; [reflexivity|].
    destruct (bfoSwitch_radio i s) as (Hb & Hi & _).
    unfold bandIdx_ok. now rewrite Hb, Hi.
  - eauto.
Qed.

Lemma loop_total i s : bandIdx_ok s -> ∃ s', loop i s = Some s' ∧ bandIdx_ok s'.
Proof.
  intros Hok.
  pose proof (untouched_ok _ _ (encoderMoved_untouched i s) Hok) as Hok0.
  destruct (checkButtons_total i _ Hok0) as (s1 & H1 & Hok1).
  destruct (loop_is_Some i s s1 H1 (getBand_is_Some _ Hok1)) as [s' H].
  exists s'. split; [assumption|].
  apply loop_after_buttons in H as (s1' & H1' & Hu).
  rewrite H1 in H1'. injection H1' as <-. eauto using untouched_ok.
Qed.

Lemma setup_total frequency :
  ∃ s, setup frequency init = Some s ∧ bandIdx_ok s ∧ radio s = (FM, false, false).
Proof.
  unfold setup.
  match goal with
  | |- context [useBand ?x] =>
      destruct (useBand_radio x (Band.mk FM_BAND_TYPE 8400 10800 10570 10)
                  eq_refl) as (s1 & H1 & Hr & Hb & Hi & _)
  end.
  rewrite H1. eexists. split; [reflexivity|]. split.
  - unfold bandIdx_ok.
    cbn [band bandIdx showStatus oled tuner emit set_log
         set_currentFrequency set_previousFrequency].
    rewrite Hb, Hi. cbn. rewrite lastBand_eq. split; [reflexivity|lia].
  - unfold radio in *. cbn in Hr. cbn. exact Hr.
Qed.

Lemma reachable_ok s : reachable s -> bandIdx_ok s.
Proof.
  induction 1 as [f s H|i s s' _ IH H].
  - destruct (setup_total f) as (s0 & H0 & Hok & _).
    rewrite H in H0. now injection H0 as <-.
  - destruct (loop_total i s IH) as (s0 & H0 & Hok).
    rewrite H in H0. now injection H0 as <-.
Qed.

(** * The mode cycle (C1) *)

(** C1.  On a band that is not FM and in mode AM, four passes of [loop]
    that each serve the mode switch go AM, LSB, USB, AM, LSB.  The first
    runs the patch-load sequence once and leaves [ssbLoaded] set; the
    second runs none; the third runs none and clears [ssbLoaded] and
    [bfoOn]; the fourth runs the patch-load sequence once more. *)
Theorem mode_cycle (i1 i2 i3 i4 : Inputs) (s : State) (t : BandType) :
  served i1 = Some MODE_SWITCH -> served i2 = Some MODE_SWITCH ->
  served i3 = Some MODE_SWITCH -> served i4 = Some MODE_SWITCH ->
  bandIdx_ok s -> currentBandType s = Some t -> t ≠ FM_BAND_TYPE ->
  currentMode s = AM ->
  ∃ s1 s2 s3 s4,
    loop i1 s = Some s1 ∧ loop i2 s1 = Some s2
    ∧ loop i3 s2 = Some s3 ∧ loop i4 s3 = Some s4
    ∧ currentMode s1 = LSB ∧ ssbLoaded s1 = true
    ∧ patchLoadRun s s1
    ∧ patchLoads (log s1) = S (patchLoads (log s))
    ∧ currentMode s2 = USB ∧ ssbLoaded s2 = true
    ∧ quiet s1 s2
    ∧ patchLoads (log s2) = patchLoads (log s1)
    ∧ currentMode s3 = AM ∧ ssbLoaded s3 = false ∧ bfoOn s3 = false
    ∧ quiet s2 s3
    ∧ patchLoads (log s3) = patchLoads (log s2)
    ∧ currentMode s4 = LSB ∧ ssbLoaded s4 = true
    ∧ patchLoadRun s3 s4
    ∧ patchLoads (log s4) = S (patchLoads (log s3)).
Proof.
  intros H1 H2 H3 H4 Hok Ht Hfm Hm.
  assert (isFM t = false) as Hf by (destruct t; [congruence|reflexivity..]).
  destruct (loop_modeSwitch i1 s t H1 Hok Ht) as (s1 & L1 & Hok1 & Ht1 & Hr1 & Hp1);
    [congruence|].
  unfold radio in Hr1, Hp1. rewrite Hf in Hr1.
  rewrite ?Hm in Hr1; rewrite ?Hm in Hp1. simpl in Hr1, Hp1.
  injection Hr1 as Hm1 Hl1 Hb1.
  destruct (loop_modeSwitch i2 s1 t H2 Hok1 Ht1) as (s2 & L2 & Hok2 & Ht2 & Hr2 & Hp2);
    [congruence|].
  unfold radio in Hr2, Hp2. rewrite Hf in Hr2.
  rewrite ?Hm1, ?Hl1 in Hr2; rewrite ?Hm1, ?Hl1 in Hp2.
  simpl in Hr2, Hp2. injection Hr2 as Hm2 Hl2 Hb2.
  destruct (loop_modeSwitch i3 s2 t H3 Hok2 Ht2) as (s3 & L3 & Hok3 & Ht3 & Hr3 & Hp3);
    [congruence|].
  unfold radio in Hr3, Hp3. rewrite Hf in Hr3.
  rewrite ?Hm2 in Hr3; rewrite ?Hm2 in Hp3.
  simpl in Hr3, Hp3. injection Hr3 as Hm3 Hl3 Hb3.
  destruct (loop_modeSwitch i4 s3 t H4 Hok3 Ht3) as (s4 & L4 & Hok4 & Ht4 & Hr4 & Hp4);
    [congruence|].
  unfold radio in Hr4, Hp4. rewrite Hf in Hr4.
  rewrite ?Hm3, ?Hl3 in Hr4; rewrite ?Hm3, ?Hl3 in Hp4.
  simpl in Hr4, Hp4. injection Hr4 as Hm4 Hl4 Hb4.
  pose proof (proj1 (loop_modeSwitch_log i1 s s1 H1 L1) Hm) as Q1.
  pose proof (proj2 (loop_modeSwitch_log i2 s1 s2 H2 L2)
                ltac:(congruence)) as Q2.
  pose proof (proj2 (loop_modeSwitch_log i3 s2 s3 H3 L3)
                ltac:(congruence)) as Q3.
  pose proof (proj1 (loop_modeSwitch_log i4 s3 s4 H4 L4) Hm3) as Q4.
  exists s1, s2, s3, s4. repeat split; assumption.
Qed.

(** * The invariants of the mode state (C6, C10) *)

Lemma radioStep_ssbInv button r n r' :
  radioStep button r n r' -> ssbInv r -> ssbInv r'.
Proof.
  destruct 1 as [[[m l] b]|m l b _ Hm|fm [[m l] b] _|fm [[m l] b] _ Hm];
    unfold ssbInv; simpl; auto;
    destruct fm, m, l; simpl; intuition congruence.
Qed.

Lemma radioStep_bfoInv button r n r' :
  radioStep button r n r' -> bfoInv r -> bfoInv r'.
Proof.
  destruct 1 as [[[m l] b]|m l b _ Hm|fm [[m l] b] _|fm [[m l] b] _ Hm];
    unfold bfoInv; simpl; auto;
    destruct fm, m, l, b; simpl; intuition congruence.
Qed.

Lemma reachable_inv s : reachable s -> ssbInv (radio s) ∧ bfoInv (radio s).
Proof.
  induction 1 as [f s H|i s s' _ [IH1 IH2] H].
  - destruct (setup_total f) as (s0 & H0 & _ & Hr).
    rewrite H in H0. injection H0 as <-. rewrite Hr.
    split; simpl; intuition congruence.
  - apply loop_radioStep in H as (n & Hstep & _).
    eauto using radioStep_ssbInv, radioStep_bfoInv.
Qed.

Ltac radio_cases H :=
  inversion H as [?|? ? ? ? ?|fm0 ? ?|fm0 ? ? ?]; subst; simpl in *;
  try congruence;
  try (destruct fm0; simpl in *);
  repeat match goal with
         | m : Mode |- _ => destruct m; simpl in *
         | l : bool |- _ => destruct l; simpl in *
         end;
  simplify_eq; try congruence; try tauto; auto.

Lemma radioStep_to_LSB button m l b n m' l' b' :
  radioStep button (m, l, b) n (m', l', b') -> m ≠ LSB -> m' = LSB ->
  m = AM ∧ button = Some MODE_SWITCH ∧ l' = true ∧ n = 1%nat.
Proof. intros H Hm Hm'. radio_cases H. Qed.

Lemma radioStep_to_USB button m l b n m' l' b' :
  radioStep button (m, l, b) n (m', l', b') -> m ≠ USB -> m' = USB ->
  m = LSB ∧ button = Some MODE_SWITCH.
Proof. intros H Hm Hm'. radio_cases H. Qed.

Lemma radioStep_unload button m b n m' l' b' :
  radioStep button (m, true, b) n (m', l', b') -> l' = false ->
  m' = FM ∨ m' = AM.
Proof. intros H Hl'. radio_cases H. Qed.

Lemma radioStep_bfo_on button m l n m' l' b' :
  radioStep button (m, l, false) n (m', l', b') -> b' = true ->
  button = Some BFO_SWITCH ∧ (m = LSB ∨ m = USB) ∧ m' = m.
Proof. intros H Hb'. radio_cases H. Qed.

Lemma radioStep_leave_ssb button m l b n m' l' b' :
  radioStep button (m, l, b) n (m', l', b') ->
  m = LSB ∨ m = USB -> ¬ (m' = LSB ∨ m' = USB) ->
  b' = false ∧ (m' = FM ∨ m' = AM).
Proof. intros H Hm Hm'. radio_cases H. Qed.

(** C6.  In every reachable state, mode LSB or USB implies [ssbLoaded].
    A pass of [loop] that brings the mode to LSB started in AM, served the
    mode switch, ran the patch load once and leaves [ssbLoaded] set; a pass
    that brings it to USB started in LSB; a pass that clears [ssbLoaded]
    ends in FM or AM; and [useBand] on a band that is not FM with
    [ssbLoaded] clear ends in AM. *)
Theorem ssb_mode_implies_loaded :
  (∀ s, reachable s ->
     currentMode s = LSB ∨ currentMode s = USB -> ssbLoaded s = true)
  ∧ (∀ i s s', loop i s = Some s' ->
       currentMode s ≠ LSB -> currentMode s' = LSB ->
       currentMode s = AM ∧ served i = Some MODE_SWITCH
       ∧ ssbLoaded s' = true
       ∧ patchLoadRun s s'
       ∧ patchLoads (log s') = S (patchLoads (log s)))
  ∧ (∀ i s s', loop i s = Some s' ->
       currentMode s ≠ USB -> currentMode s' = USB ->
       currentMode s = LSB ∧ served i = Some MODE_SWITCH)
  ∧ (∀ i s s', loop i s = Some s' ->
       ssbLoaded s = true -> ssbLoaded s' = false ->
       currentMode s' = FM ∨ currentMode s' = AM)
  ∧ (∀ s b s', getBand s = Some b -> Band.bandType b ≠ FM_BAND_TYPE ->
       ssbLoaded s = false -> useBand s = Some s' ->
       currentMode s' = AM ∧ ssbLoaded s' = false).
Proof.
  split; [|split; [|split; [|split]]].
  - intros s [Hs _]%reachable_inv. exact Hs.
  - intros i s s' Hloop Hm Hm'.
    pose proof Hloop as (n & Hstep & Hp)%loop_radioStep.
    destruct (radioStep_to_LSB _ _ _ _ _ _ _ _ Hstep Hm Hm')
      as (Ham & Hsv & Hl & ->).
    repeat split; auto.
    exact (proj1 (loop_modeSwitch_log i s s' Hsv Hloop) Ham).
  - intros i s s' (n & Hstep & _)%loop_radioStep Hm Hm'.
    exact (radioStep_to_USB _ _ _ _ _ _ _ _ Hstep Hm Hm').
  - intros i s s' (n & Hstep & _)%loop_radioStep Hl Hl'.
    unfold radio in Hstep. rewrite Hl in Hstep.
    exact (radioStep_unload _ _ _ _ _ _ _ Hstep Hl').
  - intros s b s' Hb Hfm Hl Hu.
    destruct (useBand_radio s b Hb) as (s'' & Hu' & Hr & _).
    rewrite Hu in Hu'. injection Hu' as <-.
    unfold radio in Hr. rewrite Hl in Hr.
    assert (isFM (Band.bandType b) = false) as Hf
      by (destruct (Band.bandType b); [congruence|reflexivity..]).
    rewrite Hf in Hr. simpl in Hr. injection Hr as -> -> _. auto.
Qed.

(** C10.  In every reachable state, [bfoOn] implies mode LSB or USB.  A
    pass of [loop] that sets [bfoOn] served the BFO switch in mode LSB or
    USB and keeps the mode; a pass that leaves LSB and USB clears
    [bfoOn]. *)
Theorem bfo_implies_ssb_mode :
  (∀ s, reachable s ->
     bfoOn s = true -> currentMode s = LSB ∨ currentMode s = USB)
  ∧ (∀ i s s', loop i s = Some s' ->
       bfoOn s = false -> bfoOn s' = true ->
       served i = Some BFO_SWITCH
       ∧ (currentMode s = LSB ∨ currentMode s = USB)
       ∧ currentMode s' = currentMode s)
  ∧ (∀ i s s', loop i s = Some s' ->
       currentMode s = LSB ∨ currentMode s = USB ->
       ¬ (currentMode s' = LSB ∨ currentMode s' = USB) ->
       bfoOn s' = false ∧ (currentMode s' = FM ∨ currentMode s' = AM)).
Proof.
  split; [|split].
  - intros s [_ Hs]%reachable_inv. exact Hs.
  - intros i s s' (n & Hstep & _)%loop_radioStep Hb Hb'.
    unfold radio in Hstep. rewrite Hb in Hstep.
    exact (radioStep_bfo_on _ _ _ _ _ _ _ Hstep Hb').
  - intros i s s' (n & Hstep & _)%loop_radioStep Hm Hm'.
    exact (radioStep_leave_ssb _ _ _ _ _ _ _ _ Hstep Hm Hm').
Qed.

(** * The theorems at concrete states *)

Lemma run_reachable frequency inputs s :
  run frequency inputs = Some s -> reachable s.
Proof.
  unfold run. revert s.
  induction inputs as [|i inputs IH] using rev_ind; intros s; simpl.
  - apply reachable_setup.
  - rewrite foldl_app. simpl.
    destruct (foldl _ _ inputs) as [s0|]; [simpl|discriminate].
    intros H. eapply reachable_loop; [now apply IH|exact H].
Qed.

Lemma on40m_ok m : bandIdx_ok (on40m m).
Proof. split; [reflexivity|]. simpl. rewrite lastBand_eq. lia. Qed.

(** C1 on the 40 m band. *)
Lemma mode_cycle_witness :
  ∃ s1 s2 s3 s4,
    loop (pressing MODE_SWITCH) (on40m AM) = Some s1
    ∧ loop (pressing MODE_SWITCH) s1 = Some s2
    ∧ loop (pressing MODE_SWITCH) s2 = Some s3
    ∧ loop (pressing MODE_SWITCH) s3 = Some s4
    ∧ currentMode s1 = LSB ∧ ssbLoaded s1 = true
    ∧ patchLoadRun (on40m AM) s1
    ∧ patchLoads (log s1) = S (patchLoads (log (on40m AM)))
    ∧ currentMode s2 = USB ∧ ssbLoaded s2 = true
    ∧ quiet s1 s2
    ∧ patchLoads (log s2) = patchLoads (log s1)
    ∧ currentMode s3 = AM ∧ ssbLoaded s3 = false ∧ bfoOn s3 = false
    ∧ quiet s2 s3
    ∧ patchLoads (log s3) = patchLoads (log s2)
    ∧ currentMode s4 = LSB ∧ ssbLoaded s4 = true
    ∧ patchLoadRun s3 s4
    ∧ patchLoads (log s4) = S (patchLoads (log s3)).
Proof.
  apply (mode_cycle _ _ _ _ (on40m AM) SW_BAND_TYPE);
    [reflexivity..|apply on40m_ok|reflexivity|discriminate|reflexivity].
Defined.

(** C2 for three steps from the first band. *)
Lemma band_up_down_roundtrip_witness :
  ∃ s1 s2, times 3 bandUp init = Some s1 ∧ times 3 bandDown s1 = Some s2
           ∧ bandIdx s2 = bandIdx init.
Proof.
  apply (band_up_down_roundtrip 3 init).
  split; [reflexivity|]. simpl. rewrite lastBand_eq. lia.
Defined.

(** C5 on the 40 m band. *)
Lemma frequency_field_format_witness :
  ∃ s', showFrequency (on40m AM) = Some s'
        ∧ displayBuffer s' = " 7200" ∧ oldUnit s' = "KHz"
        ∧ oldMode s' = "AM ".
Proof.
  destruct (frequency_field_format (on40m AM)
              (Band.mk SW_BAND_TYPE 6800 7800 7200 5) eq_refl)
    as (s' & H & _ & Hsw).
  destruct (Hsw eq_refl eq_refl) as (_ & Hu & Hb & _ & Hm).
  exists s'. repeat split; auto.
Defined.

(** C6 after [setup], one band up and one press of the mode switch. *)
Lemma ssb_mode_implies_loaded_witness :
  ∃ s, run 10570 [pressing BAND_BUTTON_UP; pressing MODE_SWITCH] = Some s
       ∧ currentMode s = LSB ∧ ssbLoaded s = true.
Proof.
  eexists. split; [vm_compute; reflexivity|]. split; [reflexivity|].
  apply (proj1 ssb_mode_implies_loaded).
  - apply (run_reachable 10570
             [pressing BAND_BUTTON_UP; pressing MODE_SWITCH]).
    vm_compute. reflexivity.
  - left. reflexivity.
Defined.

(** C7 from [bwIdxSSB = 5] in LSB. *)
Lemma bandwidth_button_witness :
  ∃ s', loop (pressing BANDWIDTH_BUTTON)
          (on40m LSB |> set_ssbLoaded true |> set_bwIdxSSB 5) = Some s'
        ∧ bwIdxSSB s' = 0.
Proof.
  destruct (bandwidth_button (pressing BANDWIDTH_BUTTON)
              (on40m LSB |> set_ssbLoaded true |> set_bwIdxSSB 5))
    as (s' & H & Hssb & _);
    [reflexivity|reflexivity|reflexivity|apply (on40m_ok LSB)
    |simpl; lia|simpl; lia|].
  exists s'. split; [assumption|].
  destruct (Hssb (or_introl eq_refl)) as (Hi & _). exact Hi.
Defined.

(** C8 on the 40 m band, from step 5. *)
Lemma step_button_witness :
  ∃ s', loop (pressing STEP_SWITCH) (on40m AM) = Some s'
        ∧ currentStep s' = 10.
Proof.
  destruct (step_button (pressing STEP_SWITCH) (on40m AM))
    as (s' & H & Hstep & _);
    [reflexivity|reflexivity|reflexivity|apply on40m_ok|].
  exists s'. split; [assumption|].
  destruct (Hstep ltac:(discriminate) eq_refl) as (_ & H5 & _).
  apply H5. reflexivity.
Defined.

(** C9 on the long wave band, with the stored mode USB. *)
Lemma lw_label_override_witness :
  ∃ s', showFrequency (onLW USB) = Some s' ∧ oldMode s' = "LW  "
        ∧ currentMode s' = USB.
Proof.
  destruct (lw_label_override (onLW USB)) as (s' & label & H & Hl & _ & Hlw & _ & Hm).
  - split; [reflexivity|]. simpl. rewrite lastBand_eq. lia.
  - exists s'. split; [assumption|]. split; [|assumption].
    rewrite Hl. apply Hlw. simpl. lia.
Defined.

(** C10 after [setup], one band up, one press of the mode switch and one
    press of the BFO switch. *)
Lemma bfo_implies_ssb_mode_witness :
  ∃ s, run 10570 [pressing BAND_BUTTON_UP; pressing MODE_SWITCH;
                  pressing BFO_SWITCH] = Some s
       ∧ bfoOn s = true ∧ (currentMode s = LSB ∨ currentMode s = USB).
Proof.
  eexists. split; [vm_compute; reflexivity|]. split; [reflexivity|].
  apply (proj1 bfo_implies_ssb_mode).
  - apply (run_reachable 10570
             [pressing BAND_BUTTON_UP; pressing MODE_SWITCH;
              pressing BFO_SWITCH]).
    vm_compute. reflexivity.
  - reflexivity.
Defined.

(** * Well-formed states are kept by every pass of [loop] *)

Lemma okCmds_app l1 l2 :
  Forall okCmd (tunerCmds l1) -> Forall okCmd (tunerCmds l2) ->
  Forall okCmd (tunerCmds (l1 ++ l2)).
Proof. intros H1 H2. rewrite tunerCmds_app. now apply Forall_app. Qed.

Lemma okCmds_oled cs : Forall okCmd (tunerCmds (map Oled cs)).
Proof. rewrite tunerCmds_oled. constructor. Qed.

(** Splits [Forall okCmd] over an explicit list of commands. *)
Ltac ok_cmds :=
  simpl; repeat (apply List.Forall_cons; [simpl|]); try apply List.Forall_nil.

Ltac wf_open H :=
  destruct H as [Hidx Hssb Ham Hstep Hbfo Hfreq Hband Hld Hfm Hlog].

Ltac wf_close :=
  constructor; unfold bandIdx_ok, currentBandType, getBand in *; simpl;
  try assumption; try lia;
  try (repeat (apply okCmds_app; [|try (repeat constructor; simpl; auto; lia)]);
       assumption).

Lemma to_u16_range z : 0 <= to_u16 z < 65536.
Proof. unfold to_u16. apply Z.mod_pos_bound. lia. Qed.

Lemma encoderMoved_wf i s : wf s -> wf (encoderMoved i s).
Proof.
  intros H. wf_open H. unfold encoderMoved.
  repeat case_match; wf_close; apply to_u16_range.
Qed.

Lemma checkRSSI_wf i s : wf s -> wf (checkRSSI i s).
Proof.
  intros H. wf_open H. unfold checkRSSI.
  repeat case_match; wf_close.
Qed.

Lemma delay_wf ms s : wf s -> wf (delay ms s).
Proof. intros H. wf_open H. wf_close. Qed.

Lemma displayOnly_wf cs s s' : displayOnly cs s s' -> wf s -> wf s'.
Proof.
  intros (b & p & f & m & u & ->) H. wf_open H. wf_close.
  apply okCmds_app; [assumption|apply okCmds_oled].
Qed.

Lemma volUpButton_wf i s : wf s -> wf (volUpButton i s).
Proof. intros H. wf_open H. wf_close. Qed.

Lemma volDownButton_wf i s : wf s -> wf (volDownButton i s).
Proof. intros H. wf_open H. wf_close. Qed.

Lemma agcSwitch_wf s : wf s -> wf (agcSwitch s).
Proof. intros H. wf_open H. wf_close. Qed.

Lemma bfoSwitch_wf i s : wf s -> wf (bfoSwitch i s).
Proof.
  intros H. wf_open H. unfold bfoSwitch.
  repeat case_decide; repeat case_match; wf_close; apply to_u16_range.
Qed.

Lemma bandwidthButton_wf s : wf s -> wf (bandwidthButton s).
Proof.
  intros H. wf_open H.
  destruct (decide (currentMode s = LSB ∨ currentMode s = USB)) as [Hm|Hm].
  - rewrite (bandwidthButton_ssb s Hm) by lia.
    assert (0 <= (if bwIdxSSB s <? 5 then bwIdxSSB s + 1 else 0) <= 5) as Hn
      by (destruct (Z.ltb_spec (bwIdxSSB s) 5); lia).
    wf_close. apply okCmds_app; [assumption|]. simpl.
    constructor; [exact Hn|]. constructor; [|constructor].
    simpl. case_decide; auto.
  - destruct (decide (currentMode s = AM)) as [Ha|Ha].
    + rewrite (bandwidthButton_am s Ha) by lia.
      assert (0 <= (if bwIdxAM s <? 6 then bwIdxAM s + 1 else 0) <= 6) as Hn
        by (destruct (Z.ltb_spec (bwIdxAM s) 6); lia).
      wf_close.
    + unfold bandwidthButton. rewrite !decide_False by assumption. wf_close.
Qed.

Lemma getBand_entryOk s b :
  Forall2 entryOk band_table (band s) -> getBand s = Some b ->
  ∃ b0, band_table !! Z.to_nat (bandIdx s) = Some b0 ∧ entryOk b0 b.
Proof.
  unfold getBand. destruct (bandIdx s <? 0); [discriminate|].
  intros H Hb. exact (Forall2_lookup_r _ _ _ _ _ H Hb).
Qed.

Lemma band_entry_update s b b' :
  Forall2 entryOk band_table (band s) -> getBand s = Some b ->
  Band.bandType b' = Band.bandType b ->
  Band.minimumFreq b' = Band.minimumFreq b ->
  Band.maximumFreq b' = Band.maximumFreq b ->
  stepOk (Band.currentStep b') -> 0 <= Band.currentFreq b' < 65536 ->
  Forall2 entryOk band_table (<[Z.to_nat (bandIdx s) := b']> (band s)).
Proof.
  intros H Hb Ht Hmin Hmax Hstep Hfreq.
  destruct (getBand_entryOk s b H Hb) as (b0 & Hb0 & Ht0 & Hmin0 & Hmax0 & _).
  rewrite <- (list_insert_id band_table _ _ Hb0).
  apply Forall2_insert; [assumption|].
  unfold entryOk. rewrite Ht, Hmin, Hmax. auto.
Qed.

Lemma saveBand_wf s s' : wf s -> saveBand s = Some s' -> wf s'.
Proof.
  intros H Hs. pose proof (saveBand_ok _ _ (wf_idx s H) Hs) as Hok.
  pose proof (saveBand_radio _ _ Hs) as (Hr & Hi & Hl & Ht).
  pose proof Hs as (b & Hb & ->)%saveBand_spec. wf_open H.
  constructor; simpl; try assumption.
  - eapply band_entry_update; eauto.
  - now rewrite Ht.
Qed.

Lemma stepOk_u8 x : stepOk x -> to_u8 x = x.
Proof. intros [->|[->| ->]]; reflexivity. Qed.

(** [useBand] re-establishes the link between mode and band type, so it
    asks for the rest only. *)
Lemma useBand_wf s s' :
  bandIdx_ok s -> 0 <= bwIdxSSB s <= 5 -> 0 <= bwIdxAM s <= 6 ->
  (currentBFOStep s = 10 ∨ currentBFOStep s = 25) ->
  Forall2 entryOk band_table (band s) ->
  (ssbLoaded s = true -> currentMode s = LSB ∨ currentMode s = USB) ->
  Forall okCmd (tunerCmds (log s)) ->
  useBand s = Some s' -> wf s'.
Proof.
  intros Hidx Hssb Ham Hbfo Hband Hld Hlog Hu.
  unfold useBand in Hu. destruct (getBand s) as [b|] eqn:Hb; [|discriminate].
  destruct (getBand_entryOk s b Hband Hb) as (b0 & _ & _ & _ & _ & Hst & Hfr).
  pose proof Hb as Hb2. unfold getBand in Hb2.
  simpl in Hu. injection Hu as <-.
  assert (∀ m, m ≠ FM -> Band.bandType b ≠ FM_BAND_TYPE ->
               m = FM <-> Some (Band.bandType b) = Some FM_BAND_TYPE)
    as Hne by (intros m Hm Hn; split; [tauto|intros [=]; tauto]).
  assert (currentMode s ≠ FM ∨ ssbLoaded s = false) as Hmode.
  { destruct (ssbLoaded s); [left|now right].
    destruct (Hld eq_refl) as [-> | ->]; discriminate. }
  assert (ssbLoaded s = true ->
          modeCode (currentMode s) = 1 ∨ modeCode (currentMode s) = 2) as Hcode.
  { intros Hl. destruct (Hld Hl) as [-> | ->]; simpl; auto. }
  repeat case_decide; destruct (ssbLoaded s) eqn:Hl; simpl; rewrite ?Hl; simpl;
    (constructor; simpl; try assumption; try lia; try tauto);
    try match goal with
        | |- stepOk (to_u8 _) => now rewrite stepOk_u8
        | |- ssbLoaded s = true -> _ => intros E; congruence
        | |- _ <-> currentBandType _ = _ =>
            unfold currentBandType, getBand; simpl; rewrite Hb2; simpl;
            first [split; [congruence|reflexivity]
                  |apply Hne; [|assumption];
                   first [discriminate|destruct Hmode; congruence]]
        | |- Forall okCmd _ =>
            rewrite <- !app_assoc; apply okCmds_app; [assumption|];
            ok_cmds; auto
        end.
Qed.

Lemma useBand_after_wf j s s' :
  wf s -> 0 <= j <= lastBand -> useBand (set_bandIdx j s) = Some s' -> wf s'.
Proof.
  intros H Hj. wf_open H. destruct Hidx as [Hlen _].
  apply useBand_wf; simpl; try assumption. now split.
Qed.

Lemma bandUp_wf s s' : wf s -> bandUp s = Some s' -> wf s'.
Proof.
  intros H. unfold bandUp.
  destruct (saveBand s) as [s1|] eqn:H1; [simpl|discriminate].
  pose proof (saveBand_wf _ _ H H1) as H1wf.
  pose proof (wf_idx _ H1wf) as [_ Hr]. rewrite lastBand_eq in Hr.
  destruct (Z.ltb_spec (bandIdx s1) lastBand) as [Hlt|Hge];
    apply useBand_after_wf; try assumption; rewrite lastBand_eq in *; lia.
Qed.

Lemma bandDown_wf s s' : wf s -> bandDown s = Some s' -> wf s'.
Proof.
  intros H. unfold bandDown.
  destruct (saveBand s) as [s1|] eqn:H1; [simpl|discriminate].
  pose proof (saveBand_wf _ _ H H1) as H1wf.
  pose proof (wf_idx _ H1wf) as [_ Hr]. rewrite lastBand_eq in Hr.
  destruct (Z.ltb_spec 0 (bandIdx s1)) as [Hlt|Hge];
    apply useBand_after_wf; try assumption; rewrite lastBand_eq in *; lia.
Qed.

Lemma nextStep_ok x : stepOk (nextStep x).
Proof.
  unfold nextStep, stepOk.
  destruct (x =? 1); [auto|]. destruct (x =? 5); auto.
Qed.

Lemma stepSwitch_wf s s' : wf s -> stepSwitch s = Some s' -> wf s'.
Proof.
  intros H Hs. pose proof (stepSwitch_ok _ _ (wf_idx s H) Hs) as Hok.
  pose proof (stepSwitch_untouched _ _ Hs) as (Hr & Hi & _ & Ht).
  wf_open H. unfold radio in Hr.
  destruct (decide (currentMode s = FM)) as [Hm|Hm].
  { rewrite (stepSwitch_fm s Hm) in Hs. injection Hs as <-.
    constructor; simpl; try assumption.
    apply okCmds_app; [assumption|]. destruct (fmStereo s); ok_cmds; auto. }
  destruct (bfoActive s) eqn:Hb.
  { rewrite (stepSwitch_bfo s Hm Hb) in Hs. injection Hs as <-.
    constructor; simpl; try assumption.
    - destruct (currentBFOStep s =? 25); auto.
    - apply okCmds_app; [assumption|]. ok_cmds. }
  destruct (getBand s) as [b|] eqn:Hg;
    [|rewrite (stepSwitch_None s Hm Hb Hg) in Hs; discriminate].
  destruct (getBand_entryOk s b Hband Hg) as (b0 & _ & _ & _ & _ & _ & Hfr).
  pose proof (nextStep_ok (currentStep s)) as Hn.
  rewrite (stepSwitch_tuning s b Hm Hb Hg) in Hs. injection Hs as <-.
  constructor; simpl; try assumption.
  - eapply band_entry_update; eauto.
  - simpl in Ht. rewrite Ht. exact Hfm.
  - apply okCmds_app; [assumption|]. ok_cmds. exact Hn.
Qed.

Lemma modeSwitch_wf s s' : wf s -> modeSwitch s = Some s' -> wf s'.
Proof.
  intros H. unfold modeSwitch. case_decide as Hm; [|now intros [= <-]].
  match goal with
  | |- context [saveBand ?x] => set (s1 := x)
  end.
  assert (wf s1) as H1.
  { wf_open H. subst s1.
    assert (currentBandType s ≠ Some FM_BAND_TYPE) as Hnf by tauto.
    destruct (currentMode s) eqn:E; try congruence;
      simpl; rewrite ?E; simpl;
      (constructor; simpl; try assumption; try lia; auto;
       try (split; [discriminate|intros Hc; now apply Hnf in Hc]);
       try discriminate).
    rewrite <- !app_assoc. apply okCmds_app; [assumption|]. ok_cmds; auto. }
  clearbody s1. intros Hs.
  destruct (saveBand s1) as [s2|] eqn:H2; [simpl in Hs|discriminate].
  pose proof (saveBand_wf _ _ H1 H2) as H2wf. wf_open H2wf.
  now apply (useBand_wf s2).
Qed.

Lemma checkButtons_wf i s s' : wf s -> checkButtons i s = Some s' -> wf s'.
Proof.
  intros H. rewrite checkButtons_served.
  destruct (served i) as [[]|]; intros Hs.
  - exact (modeSwitch_wf _ _ H Hs).
  - injection Hs as <-. now apply bandwidthButton_wf.
  - injection Hs as <-. now apply volUpButton_wf.
  - injection Hs as <-. now apply volDownButton_wf.
  - exact (bandUp_wf _ _ H Hs).
  - exact (bandDown_wf _ _ H Hs).
  - injection Hs as <-. now apply agcSwitch_wf.
  - exact (stepSwitch_wf _ _ H Hs).
  - injection Hs as <-. now apply bfoSwitch_wf.
  - now injection Hs as <-.
Qed.

Lemma loop_wf i s s' : wf s -> loop i s = Some s' -> wf s'.
Proof.
  intros H. unfold loop. intros Hl.
  destruct (checkButtons i (encoderMoved i s)) as [s1|] eqn:H1; [|discriminate].
  simpl in Hl. destruct (frequencyChanged s1) as [s2|] eqn:H2; [|discriminate].
  injection Hl as <-.
  pose proof (checkButtons_wf _ _ _ (encoderMoved_wf i s H) H1) as H1wf.
  destruct (frequencyChanged_displayOnly _ _ H2) as [cs Hd].
  apply delay_wf, checkRSSI_wf. exact (displayOnly_wf _ _ _ Hd H1wf).
Qed.

Lemma band_table_ok : Forall2 entryOk band_table band_table.
Proof.
  unfold band_table.
  repeat (apply List.Forall2_cons;
          [unfold entryOk, stepOk; simpl; repeat split; auto; lia|]).
  apply List.Forall2_nil.
Qed.

Lemma setup_wf frequency s : setup frequency init = Some s -> wf s.
Proof.
  unfold setup.
  match goal with
  | |- context [useBand ?x] => set (s0 := x)
  end.
  destruct (useBand s0) as [s1|] eqn:H1; [simpl|discriminate].
  intros [= <-].
  assert (wf s1) as Hwf.
  { apply (useBand_wf s0).
    - split; [reflexivity|]. change (bandIdx s0) with 0.
      rewrite lastBand_eq. lia.
    - change (bwIdxSSB s0) with 2. lia.
    - change (bwIdxAM s0) with 1. lia.
    - right. reflexivity.
    - change (band s0) with band_table. apply band_table_ok.
    - change (ssbLoaded s0) with false. discriminate.
    - change (tunerCmds (log s0))
        with [GetDeviceI2CAddress; SetI2CFastMode; Setup FM_BAND_TYPE].
      ok_cmds; exact I.
    - exact H1. }
  wf_open Hwf. wf_close. apply to_u16_range.
Qed.

Lemma reachable_wf s : reachable s -> wf s.
Proof.
  induction 1; eauto using setup_wf, loop_wf.
Qed.

(** * Facts that hold in every reachable state *)

(** X1.  In every reachable state [bandIdx] points into the band table,
    which still has its twenty entries, and the next pass of [loop]
    completes whatever it reads: no access to [band] is out of bounds. *)
Theorem band_index_always_valid (s : State) :
  reachable s ->
  0 <= bandIdx s <= 19 ∧ length (band s) = 20%nat
  ∧ is_Some (getBand s)
  ∧ ∀ i, ∃ s', loop i s = Some s' ∧ reachable s'.
Proof.
  intros Hr. pose proof (reachable_ok s Hr) as Hok.
  pose proof Hok as [Hlen Hidx]. rewrite lastBand_eq in Hidx.
  split; [assumption|]. split; [exact Hlen|].
  split; [now apply getBand_is_Some|].
  intros i. destruct (loop_total i s Hok) as (s' & Hl & _).
  exists s'. split; [assumption|]. eapply reachable_loop; eassumption.
Qed.

(** X2.  The type and the frequency limits of every band are those of the
    table as declared: nothing the receiver does rewrites them. *)
Theorem band_limits_never_change (s : State) (j : nat) (b0 : Band.t) :
  reachable s -> band_table !! j = Some b0 ->
  ∃ b, band s !! j = Some b
     ∧ Band.bandType b = Band.bandType b0
     ∧ Band.minimumFreq b = Band.minimumFreq b0
     ∧ Band.maximumFreq b = Band.maximumFreq b0.
Proof.
  intros Hr%reachable_wf Hj.
  destruct (Forall2_lookup_l _ _ _ _ _ (wf_band s Hr) Hj)
    as (b & Hb & Ht & Hmin & Hmax & _).
  eauto.
Qed.

(** X3.  The tuning step in use and the step stored with every band are
    always 1, 5 or 10, and the BFO step is always 10 or 25. *)
Theorem steps_stay_in_cycle (s : State) :
  reachable s ->
  stepOk (currentStep s)
  ∧ (currentBFOStep s = 10 ∨ currentBFOStep s = 25)
  ∧ ∀ j b, band s !! j = Some b -> stepOk (Band.currentStep b).
Proof.
  intros Hr%reachable_wf. split; [apply (wf_step s Hr)|].
  split; [apply (wf_bfoStep s Hr)|]. intros j b Hb.
  destruct (Forall2_lookup_r _ _ _ _ _ (wf_band s Hr) Hb)
    as (b0 & _ & _ & _ & _ & Hst & _).
  exact Hst.
Qed.

(** X4.  [bwIdxSSB] always indexes the six entries of [bandwitdthSSB] and
    [bwIdxAM] the seven entries of [bandwitdthAM]. *)
Theorem bandwidth_indices_in_range (s : State) :
  reachable s -> 0 <= bwIdxSSB s <= 5 ∧ 0 <= bwIdxAM s <= 6.
Proof.
  intros Hr%reachable_wf. split; [apply (wf_ssb s Hr)|apply (wf_am s Hr)].
Qed.

(** X5.  Every command the tuner has received carries arguments in range:
    an SSB audio bandwidth from 0 to 5, an AM bandwidth from 0 to 6, a
    sideband cutoff of 0 or 1, a step of 1, 5 or 10, and [setSSB] is only
    ever called with the sideband LSB (1) or USB (2), never with the code
    of AM or FM. *)
Theorem tuner_commands_in_range (s : State) :
  reachable s ->
  Forall okCmd (tunerCmds (log s))
  ∧ (∀ fromFreq toFreq initialFreq step usblsb,
       SetSSB fromFreq toFreq initialFreq step usblsb ∈ tunerCmds (log s) ->
       usblsb = modeCode LSB ∨ usblsb = modeCode USB)
  ∧ (∀ audiobw, SetSSBAudioBandwidth audiobw ∈ tunerCmds (log s) ->
       0 <= audiobw <= 5)
  ∧ (∀ ambw amplflt, SetBandwidth ambw amplflt ∈ tunerCmds (log s) ->
       0 <= ambw <= 6)
  ∧ (∀ step, SetFrequencyStep step ∈ tunerCmds (log s) ->
       step = 1 ∨ step = 5 ∨ step = 10).
Proof.
  intros Hr%reachable_wf. pose proof (wf_log s Hr) as Hlog.
  split; [assumption|]. rewrite Forall_forall in Hlog.
  repeat split; intros; match goal with
                        | H : _ ∈ _ |- _ => apply Hlog in H; simpl in H
                        end; tauto.
Qed.

(** X6.  In every reachable state [ssbLoaded] holds exactly in the modes
    LSB and USB: the patch is never marked loaded in AM or FM. *)
Theorem loaded_iff_ssb_mode (s : State) :
  reachable s ->
  ssbLoaded s = true <-> (currentMode s = LSB ∨ currentMode s = USB).
Proof.
  intros Hr. split.
  - apply (wf_loaded s (reachable_wf s Hr)).
  - exact (proj1 (reachable_inv s Hr)).
Qed.

(** X7.  In every reachable state the mode is FM exactly when the current
    band is the FM band. *)
Theorem fm_mode_iff_fm_band (s : State) :
  reachable s ->
  currentMode s = FM <-> currentBandType s = Some FM_BAND_TYPE.
Proof. intros Hr%reachable_wf. apply (wf_fm s Hr). Qed.

(** * A band remembers where it was tuned *)

Lemma useBand_loads s s' :
  useBand s = Some s' ->
  ∃ b, getBand s = Some b
     ∧ currentFrequency s' = Band.currentFreq b
     ∧ currentStep s' = to_u8 (Band.currentStep b).
Proof.
  unfold useBand. destruct (getBand s) as [b|]; [simpl|discriminate].
  intros [= <-]. exists b. repeat split.
Qed.

Lemma nextIdx_ne i : inRange i -> Z.to_nat (nextIdx i) ≠ Z.to_nat i.
Proof.
  unfold inRange, nextIdx. rewrite lastBand_eq.
  destruct (Z.ltb_spec i 19); lia.
Qed.

Lemma prevIdx_ne i : inRange i -> Z.to_nat (prevIdx i) ≠ Z.to_nat i.
Proof.
  unfold inRange, prevIdx. rewrite lastBand_eq.
  destruct (Z.ltb_spec 0 i); lia.
Qed.

(** Leaving the band at [bandIdx s] for the band [j] and coming back. *)
Lemma leave_and_return s b j s1 s2 :
  getBand s = Some b -> 0 <= currentStep s < 256 ->
  0 <= j -> Z.to_nat j ≠ Z.to_nat (bandIdx s) ->
  useBand (switchTo j b s) = Some s1 ->
  (∀ b1, getBand s1 = Some b1 ->
         useBand (switchTo (bandIdx s) b1 s1) = Some s2) ->
  currentFrequency s2 = currentFrequency s ∧ currentStep s2 = currentStep s
  ∧ bandIdx s2 = bandIdx s.
Proof.
  intros Hb Hstep Hj Hne H1 H2.
  pose proof (useBand_band _ _ H1) as [Hband1 Hidx1]. simpl in Hband1, Hidx1.
  pose proof (switchTo_saved _ _ _ _ Hb H1) as Hsaved.
  destruct (useBand_inv _ _ H1) as (b1' & Hg1 & _).
  assert (is_Some (getBand s1)) as [b1 Hb1]
    by (rewrite (getBand_same _ _ (proj1 (useBand_band _ _ H1))
                   (proj2 (useBand_band _ _ H1))); eauto).
  specialize (H2 b1 Hb1).
  pose proof (useBand_band _ _ H2) as [_ Hidx2]. simpl in Hidx2.
  destruct (useBand_loads _ _ H2) as (b2 & Hg2 & Hf2 & Hs2).
  assert (b2 = Band.mk (Band.bandType b) (Band.minimumFreq b)
                 (Band.maximumFreq b) (currentFrequency s) (currentStep s))
    as ->.
  { unfold getBand in Hg2, Hb. simpl in Hg2.
    destruct (bandIdx s <? 0); [discriminate|].
    rewrite Hidx1 in Hg2.
    rewrite list_lookup_insert_ne in Hg2 by assumption.
    rewrite Hsaved in Hg2. now injection Hg2. }
  simpl in Hf2, Hs2. split; [assumption|]. split; [|assumption].
  rewrite Hs2. unfold to_u8. apply Z.mod_small. lia.
Qed.

(** X8.  Tuning is remembered per band: one band up followed by one band
    down, or one band down followed by one band up, brings back the
    frequency and the step the receiver had, together with the band. *)
Theorem band_switch_restores_tuning (s : State) :
  bandIdx_ok s -> 0 <= currentStep s < 256 ->
  (∃ s1 s2, bandUp s = Some s1 ∧ bandDown s1 = Some s2
            ∧ currentFrequency s2 = currentFrequency s
            ∧ currentStep s2 = currentStep s ∧ bandIdx s2 = bandIdx s)
  ∧ (∃ s1 s2, bandDown s = Some s1 ∧ bandUp s1 = Some s2
              ∧ currentFrequency s2 = currentFrequency s
              ∧ currentStep s2 = currentStep s ∧ bandIdx s2 = bandIdx s).
Proof.
  intros Hok Hstep. pose proof Hok as [_ Hr].
  destruct (getBand_is_Some s Hok) as [b Hb]. split.
  - destruct (bandUp_is_Some s Hok) as [s1 H1].
    pose proof (bandUp_ok _ _ Hok H1) as Hok1.
    destruct (bandDown_is_Some s1 Hok1) as [s2 H2].
    exists s1, s2. split; [assumption|]. split; [assumption|].
    pose proof (bandUp_bandIdx _ _ H1) as Hi1.
    rewrite (bandUp_unfold s b Hb) in H1.
    apply (leave_and_return s b (nextIdx (bandIdx s)) s1 s2);
      try assumption.
    + pose proof (nextIdx_inRange _ Hr) as [? _]. assumption.
    + now apply nextIdx_ne.
    + intros b1 Hb1. rewrite (bandDown_unfold s1 b1 Hb1) in H2.
      now rewrite Hi1, prevIdx_nextIdx in H2.
  - destruct (bandDown_is_Some s Hok) as [s1 H1].
    pose proof (bandDown_ok _ _ Hok H1) as Hok1.
    destruct (bandUp_is_Some s1 Hok1) as [s2 H2].
    exists s1, s2. split; [assumption|]. split; [assumption|].
    pose proof (bandDown_bandIdx _ _ H1) as Hi1.
    rewrite (bandDown_unfold s b Hb) in H1.
    apply (leave_and_return s b (prevIdx (bandIdx s)) s1 s2);
      try assumption.
    + pose proof (prevIdx_inRange _ Hr) as [? _]. assumption.
    + now apply prevIdx_ne.
    + intros b1 Hb1. rewrite (bandUp_unfold s1 b1 Hb1) in H2.
      now rewrite Hi1, nextIdx_prevIdx in H2.
Qed.

(** * More on [printValue] *)

Lemma spec_render_same c line space text : spec_render c line space text text = [].
Proof.
  revert c. induction text as [|ch text IH]; intros c; simpl; [reflexivity|].
  rewrite decide_True by reflexivity. apply IH.
Qed.

(** X9.  Whatever the two texts, [printValue] writes the first character
    of the new and of the old text from (38, 0) on and then exactly the
    glyphs of the differential rendering; it leaves the new text in the
    cache, so that drawing the same text again writes nothing but those
    two leading glyphs. *)
Theorem printValue_differential
    (p : Pen) (col line space : Z) (oldValue newValue : string) :
  let first := printValue col line oldValue newValue space in
  let again := printValue col line first.2 newValue space in
  glyphs p first.1
  = [mkGlyph 38 0 0 (pen_color p) (firstChar newValue);
     mkGlyph 38 0 1 (pen_color p) (firstChar oldValue)]
    ++ spec_render col line space oldValue newValue
  ∧ first.2 = newValue
  ∧ glyphs p again.1
    = [mkGlyph 38 0 0 (pen_color p) (firstChar newValue);
       mkGlyph 38 0 1 (pen_color p) (firstChar newValue)].
Proof.
  cbv zeta. rewrite printValue_snd, !printValue_glyphs, spec_render_same.
  auto.
Qed.

Lemma textGlyphs_cells color c line space text g :
  g ∈ textGlyphs color c line space text ->
  glyph_y g = line ∧ glyph_advance g = O ∧ glyph_color g = color
  ∧ ∃ k, (k < String.length text)%nat ∧ glyph_x g = c + Z.of_nat k * space
         ∧ String.get k text = Some (glyph_char g).
Proof.
  revert c. induction text as [|ch text IH]; intros c; simpl.
  - intros H. inversion H.
  - intros [->|H]%elem_of_cons.
    + simpl. repeat split. exists O. simpl. repeat split; lia.
    + destruct (IH _ H) as (Hy & Ha & Hc & k & Hk & Hx & Hg).
      repeat split; try assumption. exists (S k). simpl.
      repeat split; [lia|lia|assumption].
Qed.

Lemma get_empty k : String.get k "" = None.
Proof. now destruct k. Qed.

Lemma spec_render_cells c line space oldText newText g :
  g ∈ spec_render c line space oldText newText ->
  glyph_y g = line ∧ glyph_advance g = O
  ∧ ∃ k, glyph_x g = c + Z.of_nat k * space
       ∧ String.get k oldText ≠ String.get k newText
       ∧ ((glyph_color g = SSD1306_BLACK
           ∧ String.get k oldText = Some (glyph_char g))
          ∨ (glyph_color g = SSD1306_WHITE
             ∧ String.get k newText = Some (glyph_char g))).
Proof.
  revert c newText. induction oldText as [|o oldText IH]; intros c newText.
  - destruct newText as [|n newText]; [intros H; inversion H|].
    cbn [spec_render]. intros H.
    destruct (textGlyphs_cells _ _ _ _ _ _ H)
      as (Hy & Ha & Hc & k & Hk & Hx & Hg).
    repeat split; try assumption. exists k. split; [assumption|].
    split; [|right; auto]. rewrite Hg, get_empty. discriminate.
  - destruct newText as [|n newText].
    + cbn [spec_render]. intros H.
      destruct (textGlyphs_cells _ _ _ _ _ _ H)
        as (Hy & Ha & Hc & k & Hk & Hx & Hg).
      repeat split; try assumption. exists k. split; [assumption|].
      split; [|left; auto]. rewrite Hg, get_empty. discriminate.
    + cbn [spec_render]. intros [H|H]%elem_of_app.
      * case_decide as Hon; [inversion H|].
        apply elem_of_cons in H as [->|H];
          [|apply elem_of_cons in H as [->|H]; [|inversion H]];
          cbn [glyph_y glyph_advance glyph_x glyph_color glyph_char];
          (split; [reflexivity|]); (split; [reflexivity|]);
          exists O; cbn [String.get Z.of_nat];
          (split; [lia|]); (split; [congruence|]); auto.
      * destruct (IH _ _ H) as (Hy & Ha & k & Hx & Hne & Hg).
        split; [assumption|]. split; [assumption|].
        exists (S k). cbn [String.get].
        split; [lia|]. split; assumption.
Qed.

(** X10.  Apart from its two leading glyphs, [printValue] only touches
    positions where the two texts differ (one of them may have ended):
    each glyph sits on the given line at column [col + k * space] for such
    a position [k], and is either the old character in background colour
    or the new character in foreground colour. *)
Theorem printValue_touches_changed_cells
    (p : Pen) (col line space : Z) (oldValue newValue : string) (g : Glyph) :
  g ∈ glyphs p (printValue col line oldValue newValue space).1 ->
  (glyph_x g = 38 ∧ glyph_y g = 0 ∧ glyph_color g = pen_color p
   ∧ ((glyph_advance g = 0%nat ∧ glyph_char g = firstChar newValue)
      ∨ (glyph_advance g = 1%nat ∧ glyph_char g = firstChar oldValue)))
  ∨ (glyph_y g = line ∧ glyph_advance g = O
     ∧ ∃ k, glyph_x g = col + Z.of_nat k * space
          ∧ String.get k oldValue ≠ String.get k newValue
          ∧ ((glyph_color g = SSD1306_BLACK
              ∧ String.get k oldValue = Some (glyph_char g))
             ∨ (glyph_color g = SSD1306_WHITE
                ∧ String.get k newValue = Some (glyph_char g)))).
Proof.
  rewrite printValue_glyphs. intros [H|H]%elem_of_app.
  - left. apply elem_of_cons in H as [->|H];
      [|apply elem_of_cons in H as [->|H]; [|inversion H]];
      simpl; auto 10.
  - right. now apply spec_render_cells.
Qed.

(** * The width of the frequency field *)

Lemma digitChar_nz d : 0 <= d < 10 -> digitChar d ≠ Ascii.zero.
Proof.
  intros Hd. assert (d = 0 ∨ d = 1 ∨ d = 2 ∨ d = 3 ∨ d = 4 ∨ d = 5 ∨ d = 6
                     ∨ d = 7 ∨ d = 8 ∨ d = 9) as H by lia.
  repeat (destruct H as [->|H]; [discriminate|]). subst. discriminate.
Qed.

Lemma digit_nz n : digitChar (n mod 10) ≠ Ascii.zero.
Proof. apply digitChar_nz. apply Z.mod_pos_bound. lia. Qed.

(** The rendering of a 16-bit value: five characters, none of them NUL. *)
Lemma sprintf_5u_chars n :
  0 <= n < 65536 ->
  ∃ c0 c1 c2 c3 c4,
    sprintf_5u n = String c0 (String c1 (String c2 (String c3 (String c4 ""))))
    ∧ c0 ≠ Ascii.zero ∧ c1 ≠ Ascii.zero ∧ c2 ≠ Ascii.zero
    ∧ c3 ≠ Ascii.zero ∧ c4 ≠ Ascii.zero.
Proof.
  intros Hn. unfold sprintf_5u, utoa. cbn [utoa_aux].
  assert (n / 10 / 10 / 10 / 10 / 10 = 0) as H5.
  { rewrite !Z.div_div by lia. apply Z.div_small. lia. }
  assert (" "%char ≠ Ascii.zero) as Hsp by discriminate.
  pose proof digit_nz as Hd.
  destruct (n / 10 =? 0).
  { do 5 eexists. split; [reflexivity|]. auto 10. }
  destruct (n / 10 / 10 =? 0).
  { do 5 eexists. split; [reflexivity|]. auto 10. }
  destruct (n / 10 / 10 / 10 =? 0).
  { do 5 eexists. split; [reflexivity|]. auto 10. }
  destruct (n / 10 / 10 / 10 / 10 =? 0).
  { do 5 eexists. split; [reflexivity|]. auto 10. }
  rewrite H5. do 5 eexists. split; [reflexivity|]. auto 10.
Qed.

Lemma freqField_width t n :
  0 <= n < 65536 ->
  String.length (freqField t n).1
  = (if decide (t = FM_BAND_TYPE) then 6 else 5)%nat
  ∧ (t = FM_BAND_TYPE -> String.get 3 (freqField t n).1 = Some "."%char).
Proof.
  intros Hn. unfold freqField.
  destruct (sprintf_5u_chars n Hn)
    as (c0 & c1 & c2 & c3 & c4 & -> & H0 & H1 & H2 & H3 & H4).
  cbv zeta. cbn [charAt String.get].
  assert ("."%char ≠ Ascii.zero) as Hdot by discriminate.
  case_decide as Ht; cbn [fst cstring];
    rewrite !decide_False by assumption;
    (split; [reflexivity|]); [reflexivity|contradiction].
Qed.

Lemma string_length_app (a b : string) :
  String.length (a +:+ b) = (String.length a + String.length b)%nat.
Proof. induction a as [|c a IH]; simpl; [reflexivity|now rewrite IH]. Qed.

(** X11.  In every reachable state [showFrequency] produces a frequency
    field of fixed width: five characters, six on the FM band (with the
    point in fourth place), and two more while [bfoOn] brackets it.  The
    text always fits the 20 bytes of [oldFreq] it is copied to. *)
Theorem frequency_field_fixed_width (s : State) :
  reachable s ->
  ∃ s' b,
    getBand s = Some b ∧ showFrequency s = Some s'
    ∧ String.length (displayBuffer s')
      = ((if decide (Band.bandType b = FM_BAND_TYPE) then 6 else 5)
         + (if bfoOn s then 2 else 0))%nat
    ∧ (Band.bandType b = FM_BAND_TYPE -> bfoOn s = false ->
       String.get 3 (displayBuffer s') = Some "."%char)
    ∧ oldFreq s' = displayBuffer s'
    ∧ (String.length (oldFreq s') < 20)%nat.
Proof.
  intros Hr. pose proof (reachable_wf s Hr) as Hwf.
  destruct (getBand_is_Some s (wf_idx s Hwf)) as [b Hb].
  destruct (showFrequency_spec s b Hb)
    as (s' & Hs & Hbuf & Hold & _).
  destruct (freqField_width (Band.bandType b) (currentFrequency s)
              (wf_freq s Hwf)) as [Hlen Hdot].
  exists s', b. split; [assumption|]. split; [assumption|].
  assert (String.length (displayBuffer s')
          = ((if decide (Band.bandType b = FM_BAND_TYPE) then 6 else 5)
             + (if bfoOn s then 2 else 0))%nat) as Hw.
  { rewrite Hbuf. destruct (bfoOn s).
    - rewrite !string_length_app, Hlen. simpl. lia.
    - rewrite Hlen. lia. }
  split; [assumption|]. split.
  - intros Ht Hoff. rewrite Hbuf, Hoff. now apply Hdot.
  - split; [congruence|]. rewrite Hold, <- Hbuf, Hw.
    case_decide; destruct (bfoOn s); lia.
Qed.

(** * Turning the encoder *)

Lemma checkButtons_none i s : served i = None -> checkButtons i s = Some s.
Proof. intros H. now rewrite checkButtons_served, H. Qed.

Lemma loop_encoder_only i s :
  served i = None -> rssiDue i = false -> bandIdx_ok s ->
  ∃ cs s2, displayOnly cs (encoderMoved i s) s2
         ∧ loop i s = Some (delay 10 s2).
Proof.
  intros Hsv Hr Hok. unfold loop.
  rewrite (checkButtons_none _ _ Hsv). simpl.
  pose proof (untouched_ok _ _ (encoderMoved_untouched i s) Hok) as Hok0.
  destruct (frequencyChanged_is_Some _ (getBand_is_Some _ Hok0)) as [s2 H2].
  destruct (frequencyChanged_displayOnly _ _ H2) as [cs Hd].
  rewrite H2. simpl. rewrite (checkRSSI_idle _ _ Hr). eauto.
Qed.

Lemma to_int_small z : -2147483648 <= z < 2147483648 -> to_int z = z.
Proof. intros H. unfold to_int. rewrite Z.mod_small; lia. Qed.

(** X12.  While [bfoOn] is set the encoder moves the BFO and nothing else:
    one step clockwise adds [currentBFOStep] to [currentBFO] and sends it,
    the step back restores it, and over both passes the tuner receives the
    two BFO offsets only, so that [currentFrequency] stays as it was. *)
Theorem bfo_turn_round_trip (i1 i2 : Inputs) (s : State) :
  encoderCount i1 = 1 -> encoderCount i2 ≠ 0 -> encoderCount i2 ≠ 1 ->
  served i1 = None -> served i2 = None ->
  rssiDue i1 = false -> rssiDue i2 = false ->
  bandIdx_ok s -> bfoOn s = true -> 0 <= currentBFOStep s ->
  -2147483648 <= currentBFO s ->
  currentBFO s + currentBFOStep s < 2147483648 ->
  ∃ s1 s2,
    loop i1 s = Some s1 ∧ loop i2 s1 = Some s2
    ∧ currentBFO s1 = currentBFO s + currentBFOStep s
    ∧ currentBFO s2 = currentBFO s
    ∧ currentFrequency s2 = currentFrequency s
    ∧ tunerCmds (log s2)
      = tunerCmds (log s) ++ [SetSSBBfo (currentBFO s + currentBFOStep s);
                              SetSSBBfo (currentBFO s)].
Proof.
  intros He1 He2 He2' Hs1 Hs2 Hr1 Hr2 Hok Hbfo Hstep Hlo Hhi.
  destruct (loop_encoder_only i1 s Hs1 Hr1 Hok) as (cs1 & t1 & Hd1 & L1).
  assert (encoderMoved i1 s
          = s |> set_currentBFO (currentBFO s + currentBFOStep s)
              |> set_log (log s ++ [Tuner (SetSSBBfo
                                             (currentBFO s + currentBFOStep s))]))
    as E1.
  { unfold encoderMoved. rewrite He1, Hbfo. simpl.
    rewrite to_int_small by lia. reflexivity. }
  rewrite E1 in Hd1. destruct Hd1 as (b1 & p1 & f1 & m1 & u1 & ->).
  simpl in L1. set (s1 := delay 10 _) in L1.
  assert (bandIdx_ok s1) as Hok1 by exact Hok.
  destruct (loop_encoder_only i2 s1 Hs2 Hr2 Hok1) as (cs2 & t2 & Hd2 & L2).
  assert (encoderMoved i2 s1
          = s1 |> set_currentBFO (currentBFO s)
               |> set_log (log s1 ++ [Tuner (SetSSBBfo (currentBFO s))]))
    as E2.
  { unfold encoderMoved.
    destruct (Z.eqb_spec (encoderCount i2) 0); [contradiction|].
    destruct (Z.eqb_spec (encoderCount i2) 1); [contradiction|].
    subst s1. simpl. rewrite Hbfo. simpl.
    replace (currentBFO s + currentBFOStep s - currentBFOStep s)
      with (currentBFO s) by lia.
    rewrite to_int_small by lia. reflexivity. }
  rewrite E2 in Hd2. destruct Hd2 as (b2 & p2 & f2 & m2 & u2 & ->).
  exists s1. eexists.
  split; [exact L1|]. split; [exact L2|]. subst s1. simpl.
  repeat split.
  rewrite !tunerCmds_app, !tunerCmds_oled. simpl.
  rewrite !app_nil_r, <- app_assoc. reflexivity.
Qed.


(** * When the display is redrawn *)

Lemma oledCmds_app l1 l2 : oledCmds (l1 ++ l2) = oledCmds l1 ++ oledCmds l2.
Proof.
  induction l1 as [|[c|c|ms] l1 IH]; simpl; [reflexivity|assumption| |assumption].
  now rewrite IH.
Qed.

Lemma oledCmds_oled cs : oledCmds (map Oled cs) = cs.
Proof. induction cs as [|c cs IH]; simpl; [reflexivity|now rewrite IH]. Qed.

Ltac silent_tac :=
  unfold silent; simpl; split; [reflexivity|];
  first [exists []; split; [now rewrite app_nil_r|reflexivity]
        |eexists; split; [rewrite <- ?app_assoc; reflexivity|reflexivity]].

Lemma silent_refl s : silent s s.
Proof. silent_tac. Qed.

Lemma silent_trans s1 s2 s3 : silent s1 s2 -> silent s2 s3 -> silent s1 s3.
Proof.
  intros (P1 & e1 & H1 & O1) (P2 & e2 & H2 & O2). split; [congruence|].
  exists (e1 ++ e2). rewrite H2, H1, <- app_assoc, oledCmds_app, O1, O2. auto.
Qed.

Lemma silent_oledCmds s s' :
  silent s s' -> oledCmds (log s') = oledCmds (log s).
Proof.
  intros (_ & e & -> & O). now rewrite oledCmds_app, O, app_nil_r.
Qed.

Lemma encoderMoved_silent i s : silent s (encoderMoved i s).
Proof. unfold encoderMoved. repeat case_match; silent_tac. Qed.

Lemma checkRSSI_silent i s : silent s (checkRSSI i s).
Proof. unfold checkRSSI. repeat case_match; silent_tac. Qed.

Lemma delay_silent ms s : silent s (delay ms s).
Proof. silent_tac. Qed.

Lemma bandwidthButton_silent s : silent s (bandwidthButton s).
Proof.
  unfold bandwidthButton. repeat case_decide; repeat case_match; silent_tac.
Qed.

Lemma volUpButton_silent i s : silent s (volUpButton i s).
Proof. silent_tac. Qed.

Lemma volDownButton_silent i s : silent s (volDownButton i s).
Proof. silent_tac. Qed.

Lemma agcSwitch_silent s : silent s (agcSwitch s).
Proof. silent_tac. Qed.

Lemma bfoSwitch_silent i s : silent s (bfoSwitch i s).
Proof.
  unfold bfoSwitch. repeat case_decide; repeat case_match; silent_tac.
Qed.

Lemma useBand_silent s s' : useBand s = Some s' -> silent s s'.
Proof.
  unfold useBand. destruct (getBand s) as [b|]; [simpl|discriminate].
  intros [= <-]. repeat case_decide; repeat case_match; silent_tac.
Qed.

Lemma saveBand_silent s s' : saveBand s = Some s' -> silent s s'.
Proof. intros (b & _ & ->)%saveBand_spec. silent_tac. Qed.

Lemma band_switch_silent s s' :
  bandUp s = Some s' ∨ bandDown s = Some s' -> silent s s'.
Proof.
  intros H.
  assert (∃ s1, saveBand s = Some s1 ∧ ∃ i, useBand (set_bandIdx i s1) = Some s')
    as (s1 & H1 & i & Hu).
  { unfold bandUp, bandDown in H.
    destruct (saveBand s) as [s1|]; [|destruct H; discriminate].
    exists s1. split; [reflexivity|]. simpl in H.
    destruct H as [H|H]; case_match; eauto. }
  eapply silent_trans; [exact (saveBand_silent _ _ H1)|].
  eapply silent_trans; [|exact (useBand_silent _ _ Hu)]. silent_tac.
Qed.

Lemma stepSwitch_silent s s' : stepSwitch s = Some s' -> silent s s'.
Proof.
  intros H. destruct (decide (currentMode s = FM)) as [Hm|Hm].
  { rewrite (stepSwitch_fm s Hm) in H. injection H as <-. silent_tac. }
  destruct (bfoActive s) eqn:Hbfo.
  { rewrite (stepSwitch_bfo s Hm Hbfo) in H. injection H as <-. silent_tac. }
  destruct (getBand s) as [b|] eqn:Hb.
  - rewrite (stepSwitch_tuning s b Hm Hbfo Hb) in H. injection H as <-.
    silent_tac.
  - rewrite (stepSwitch_None s Hm Hbfo Hb) in H. discriminate.
Qed.

Lemma modeSwitch_silent s s' : modeSwitch s = Some s' -> silent s s'.
Proof.
  unfold modeSwitch. case_decide as Hm; [|intros [= <-]; apply silent_refl].
  match goal with
  | |- context [saveBand ?x] => set (s1 := x)
  end.
  assert (silent s s1) as H1
    by (subst s1; repeat case_decide; silent_tac).
  clearbody s1. intros H.
  destruct (saveBand s1) as [s2|] eqn:H2; [simpl in H|discriminate].
  eauto using silent_trans, saveBand_silent, useBand_silent.
Qed.

Lemma checkButtons_silent i s s' : checkButtons i s = Some s' -> silent s s'.
Proof.
  rewrite checkButtons_served.
  destruct (served i) as [[]|]; intros Hs.
  - exact (modeSwitch_silent _ _ Hs).
  - injection Hs as <-. apply bandwidthButton_silent.
  - injection Hs as <-. apply volUpButton_silent.
  - injection Hs as <-. apply volDownButton_silent.
  - exact (band_switch_silent _ _ (or_introl Hs)).
  - exact (band_switch_silent _ _ (or_intror Hs)).
  - injection Hs as <-. apply agcSwitch_silent.
  - exact (stepSwitch_silent _ _ Hs).
  - injection Hs as <-. apply bfoSwitch_silent.
  - injection Hs as <-. apply silent_refl.
Qed.

Lemma showFrequency_draws s s' :
  showFrequency s = Some s' ->
  previousFrequency s' = previousFrequency s
  ∧ currentFrequency s' = currentFrequency s
  ∧ ∃ cs, log s' = log s ++ map Oled (cs ++ [Display]).
Proof.
  unfold showFrequency. destruct (getBand s) as [b|]; [|discriminate].
  cbn [mbind option_bind].
  destruct (freqField _ _) as [freq unit]. cbv zeta.
  set (p1 := printValue 38 0 _ _ 7). destruct p1 as [cs1 old1].
  set (p2 := printValue 0 0 _ _ 7). destruct p2 as [cs2 old2].
  set (p3 := printValue 0 0 _ _ 7). destruct p3 as [cs3 old3].
  intros [= <-]. split; [reflexivity|]. split; [reflexivity|].
  exists (cs1 ++ cs2 ++ cs3). unfold oled, oledAll, emit. state_norm.
  rewrite !map_app, <- !app_assoc. reflexivity.
Qed.

Lemma frequencyChanged_draws s s' :
  frequencyChanged s = Some s' ->
  previousFrequency s' = currentFrequency s
  ∧ currentFrequency s' = currentFrequency s
  ∧ (currentFrequency s = previousFrequency s -> log s' = log s)
  ∧ (currentFrequency s ≠ previousFrequency s ->
     ∃ cs, log s' = log s ++ map Oled (cs ++ [Display])).
Proof.
  unfold frequencyChanged. case_decide as Hc.
  - intros (Hp & Hf & cs & Hl)%showFrequency_draws. simpl in *.
    split; [assumption|]. split; [assumption|].
    split; [intros E; contradiction|]. intros _. eauto.
  - intros [= <-]. split; [lia|]. split; [reflexivity|].
    split; [reflexivity|]. intros E. lia.
Qed.

Lemma loop_phases i s s' :
  loop i s = Some s' ->
  ∃ s1 s2, checkButtons i (encoderMoved i s) = Some s1
         ∧ frequencyChanged s1 = Some s2
         ∧ s' = delay 10 (checkRSSI i s2).
Proof.
  unfold loop. intros H.
  destruct (checkButtons i (encoderMoved i s)) as [s1|] eqn:H1;
    [|discriminate].
  simpl in H. destruct (frequencyChanged s1) as [s2|] eqn:H2; [|discriminate].
  injection H as <-. exists s1, s2. auto.
Qed.

Lemma checkRSSI_frequency i s :
  currentFrequency (checkRSSI i s) = currentFrequency s.
Proof. unfold checkRSSI. repeat case_match; reflexivity. Qed.

(** What a pass does to the display, from a state in which the frequency
    shown is the frequency tuned. *)
Lemma loop_draws i s s' :
  previousFrequency s = currentFrequency s -> loop i s = Some s' ->
  previousFrequency s' = currentFrequency s'
  ∧ (currentFrequency s' = currentFrequency s ->
     oledCmds (log s') = oledCmds (log s))
  ∧ (currentFrequency s' ≠ currentFrequency s ->
     ∃ cs, oledCmds (log s') = oledCmds (log s) ++ cs ++ [Display]).
Proof.
  intros Hpc (s1 & s2 & H1 & H2 & ->)%loop_phases.
  pose proof (silent_trans _ _ _ (encoderMoved_silent i s)
                (checkButtons_silent _ _ _ H1)) as Hs1.
  destruct (frequencyChanged_draws _ _ H2) as (Hp2 & Hf2 & Hsame & Hdiff).
  pose proof (silent_trans _ _ _ (checkRSSI_silent i s2)
                (delay_silent 10 _)) as Hs3.
  pose proof (silent_oledCmds _ _ Hs1) as Ho1.
  pose proof (silent_oledCmds _ _ Hs3) as Ho3.
  destruct Hs1 as (Hp1 & _). destruct Hs3 as (Hp3 & _).
  assert (currentFrequency (delay 10 (checkRSSI i s2)) = currentFrequency s1)
    as Hf3 by (simpl; now rewrite checkRSSI_frequency).
  split; [now rewrite Hp3, Hp2, Hf3|]. rewrite Hf3, Ho3. split.
  - intros Heq. rewrite Hsame by congruence. assumption.
  - intros Hne. destruct Hdiff as [cs Hl]; [congruence|].
    exists cs. now rewrite Hl, oledCmds_app, oledCmds_oled, Ho1.
Qed.

Lemma setup_shown frequency s :
  setup frequency init = Some s -> previousFrequency s = currentFrequency s.
Proof.
  unfold setup.
  match goal with
  | |- context [useBand ?x] => set (s0 := x)
  end.
  destruct (useBand s0) as [s1|]; [|discriminate].
  cbn [mbind option_bind]. intros [= <-]. reflexivity.
Qed.

Lemma reachable_shown s : reachable s -> previousFrequency s = currentFrequency s.
Proof.
  induction 1 as [f s H|i s s' _ IH H].
  - exact (setup_shown f s H).
  - exact (proj1 (loop_draws i s s' IH H)).
Qed.

(** X14.  The display is redrawn only on a change of frequency.  From a
    reachable state, a pass of [loop] that leaves [currentFrequency] as it
    was sends nothing to the display, whatever button it serves (so a
    change of mode, band width, step or BFO alone is not shown); a pass
    that changes it sends one redraw, ended by [display()]; and after the
    pass [previousFrequency] equals [currentFrequency]. *)
Theorem display_follows_frequency (i : Inputs) (s s' : State) :
  reachable s -> loop i s = Some s' ->
  previousFrequency s' = currentFrequency s'
  ∧ (currentFrequency s' = currentFrequency s ->
     oledCmds (log s') = oledCmds (log s))
  ∧ (currentFrequency s' ≠ currentFrequency s ->
     ∃ cs, oledCmds (log s') = oledCmds (log s) ++ cs ++ [Display]).
Proof.
  intros Hr Hl. exact (loop_draws i s s' (reachable_shown s Hr) Hl).
Qed.

(** X13.  The interrupt routine and [loop] agree on the direction: after a
    movement reported as [DIR_CW] the pass sends frequency-up, after any
    other movement frequency-down, then reads the frequency back into
    [currentFrequency] (modulo 2^16); the BFO offset is not touched.
    Without a movement the routine leaves [encoderCount] alone. *)
Theorem encoder_tunes (DIR_CW status count : Z) (i : Inputs) (s : State) :
  status ≠ 0 -> encoderCount i = rotaryEncoder DIR_CW status count ->
  served i = None -> rssiDue i = false -> bandIdx_ok s -> bfoOn s = false ->
  rotaryEncoder DIR_CW 0 count = count
  ∧ ∃ s', loop i s = Some s'
      ∧ tunerCmds (log s')
        = tunerCmds (log s) ++ [if status =? DIR_CW then FrequencyUp
                                else FrequencyDown; GetFrequency]
      ∧ currentFrequency s' = to_u16 (tunedFrequency i)
      ∧ currentBFO s' = currentBFO s.
Proof.
  intros Hst He Hsv Hr Hok Hbfo. split; [reflexivity|].
  unfold rotaryEncoder in He.
  destruct (Z.eqb_spec status 0); [contradiction|].
  assert (encoderMoved i s
          = s |> set_currentFrequency (to_u16 (tunedFrequency i))
              |> set_log (log s ++ [Tuner (if status =? DIR_CW
                                           then FrequencyUp
                                           else FrequencyDown);
                                    Tuner GetFrequency])) as E.
  { unfold encoderMoved. rewrite He, Hbfo.
    destruct (status =? DIR_CW); simpl; unfold tuner, emit; simpl;
      rewrite <- app_assoc; reflexivity. }
  destruct (loop_encoder_only i s Hsv Hr Hok) as (cs & s2 & Hd & L).
  rewrite E in Hd. destruct Hd as (bb & pp & ff & mm & uu & ->).
  eexists. split; [exact L|]. simpl. repeat split.
  rewrite !tunerCmds_app, tunerCmds_oled. simpl.
  now rewrite !app_nil_r.
Qed.

(** * The bands form a circle *)

Lemma nextIdx_mod i : inRange i -> nextIdx i = (i + 1) mod 20.
Proof.
  unfold inRange, nextIdx. rewrite lastBand_eq. intros H.
  destruct (Z.ltb_spec i 19).
  - rewrite Z.mod_small; lia.
  - replace i with 19 by lia. reflexivity.
Qed.

Lemma prevIdx_mod i : inRange i -> prevIdx i = (i - 1) mod 20.
Proof.
  unfold inRange, prevIdx. rewrite lastBand_eq. intros H.
  destruct (Z.ltb_spec 0 i).
  - rewrite Z.mod_small; lia.
  - replace i with 0 by lia. reflexivity.
Qed.

Lemma iter_nextIdx n i :
  inRange i -> Nat.iter n nextIdx i = (i + Z.of_nat n) mod 20.
Proof.
  intros Hi. induction n as [|n IH].
  - simpl. unfold inRange in Hi. rewrite lastBand_eq in Hi.
    rewrite Z.add_0_r, Z.mod_small; lia.
  - simpl Nat.iter. rewrite nextIdx_mod
      by (apply iter_inRange; auto using nextIdx_inRange).
    rewrite IH, Zplus_mod_idemp_l. f_equal. lia.
Qed.

Lemma iter_prevIdx n i :
  inRange i -> Nat.iter n prevIdx i = (i - Z.of_nat n) mod 20.
Proof.
  intros Hi. induction n as [|n IH].
  - simpl. unfold inRange in Hi. rewrite lastBand_eq in Hi.
    rewrite Z.sub_0_r, Z.mod_small; lia.
  - simpl Nat.iter. rewrite prevIdx_mod
      by (apply iter_inRange; auto using prevIdx_inRange).
    rewrite IH, Zminus_mod_idemp_l. f_equal. lia.
Qed.

(** X15.  The twenty bands form a circle: [n] band-up steps lead from band
    [i] to band [(i + n) mod 20] and [n] band-down steps to band
    [(i - n) mod 20], so twenty steps either way come back to the band
    they started from and every band can be reached in both directions. *)
Theorem bands_form_a_circle (n : nat) (s : State) :
  bandIdx_ok s ->
  (∃ s', times n bandUp s = Some s'
         ∧ bandIdx s' = (bandIdx s + Z.of_nat n) mod 20)
  ∧ (∃ s', times n bandDown s = Some s'
           ∧ bandIdx s' = (bandIdx s - Z.of_nat n) mod 20)
  ∧ (∃ s', times 20 bandUp s = Some s' ∧ bandIdx s' = bandIdx s)
  ∧ (∃ s', times 20 bandDown s = Some s' ∧ bandIdx s' = bandIdx s).
Proof.
  intros Hok. pose proof Hok as [_ Hr].
  assert (∀ k, ∃ s', times k bandUp s = Some s'
                     ∧ bandIdx s' = (bandIdx s + Z.of_nat k) mod 20) as Hup.
  { intros k. destruct (times_bandUp k s Hok) as (s' & H & _ & Hi).
    exists s'. split; [assumption|]. now rewrite Hi, iter_nextIdx. }
  assert (∀ k, ∃ s', times k bandDown s = Some s'
                     ∧ bandIdx s' = (bandIdx s - Z.of_nat k) mod 20) as Hdown.
  { intros k. destruct (times_bandDown k s Hok) as (s' & H & _ & Hi).
    exists s'. split; [assumption|]. now rewrite Hi, iter_prevIdx. }
  split; [apply Hup|]. split; [apply Hdown|].
  rewrite lastBand_eq in Hr. split.
  - destruct (Hup 20%nat) as (s' & H & Hi). exists s'.
    split; [assumption|]. rewrite Hi.
    change (Z.of_nat 20) with (1 * 20).
    rewrite Z.mod_add by lia. apply Z.mod_small. lia.
  - destruct (Hdown 20%nat) as (s' & H & Hi). exists s'.
    split; [assumption|]. rewrite Hi.
    replace (bandIdx s - Z.of_nat 20) with (bandIdx s + (-1) * 20) by lia.
    rewrite Z.mod_add by lia. apply Z.mod_small. lia.
Qed.

(** * The further theorems at concrete states *)

(** X1 after [setup] and one band up. *)
Lemma band_index_always_valid_witness :
  ∃ s, run 10570 [pressing BAND_BUTTON_UP] = Some s
       ∧ 0 <= bandIdx s <= 19 ∧ length (band s) = 20%nat.
Proof.
  destruct (run 10570 [pressing BAND_BUTTON_UP]) as [s|] eqn:E;
    [|vm_compute in E; discriminate].
  exists s. split; [reflexivity|].
  destruct (band_index_always_valid s (run_reachable _ _ _ E))
    as (Hi & Hl & _).
  split; assumption.
Defined.

(** X2 for the 40 m band after [setup], one band up and a step change. *)
Lemma band_limits_never_change_witness :
  ∃ s b, run 10570 [pressing BAND_BUTTON_UP; pressing STEP_SWITCH] = Some s
         ∧ band s !! 7%nat = Some b
         ∧ Band.minimumFreq b = 6800 ∧ Band.maximumFreq b = 7800.
Proof.
  destruct (run 10570 [pressing BAND_BUTTON_UP; pressing STEP_SWITCH])
    as [s|] eqn:E; [|vm_compute in E; discriminate].
  destruct (band_limits_never_change s 7%nat
              (Band.mk SW_BAND_TYPE 6800 7800 7200 5)
              (run_reachable _ _ _ E) eq_refl)
    as (b & Hb & _ & Hmin & Hmax).
  exists s, b. repeat split; assumption.
Defined.

(** X3 after [setup], one band up and a step change. *)
Lemma steps_stay_in_cycle_witness :
  ∃ s, run 10570 [pressing BAND_BUTTON_UP; pressing STEP_SWITCH] = Some s
       ∧ stepOk (currentStep s).
Proof.
  destruct (run 10570 [pressing BAND_BUTTON_UP; pressing STEP_SWITCH])
    as [s|] eqn:E; [|vm_compute in E; discriminate].
  exists s. split; [reflexivity|].
  exact (proj1 (steps_stay_in_cycle s (run_reachable _ _ _ E))).
Defined.

(** X4 after [setup], one band up and a bandwidth change. *)
Lemma bandwidth_indices_in_range_witness :
  ∃ s, run 10570 [pressing BAND_BUTTON_UP; pressing BANDWIDTH_BUTTON] = Some s
       ∧ 0 <= bwIdxSSB s <= 5 ∧ 0 <= bwIdxAM s <= 6.
Proof.
  destruct (run 10570 [pressing BAND_BUTTON_UP; pressing BANDWIDTH_BUTTON])
    as [s|] eqn:E; [|vm_compute in E; discriminate].
  exists s. split; [reflexivity|].
  exact (bandwidth_indices_in_range s (run_reachable _ _ _ E)).
Defined.

(** X5 after [setup], one band up and a mode change to LSB. *)
Lemma tuner_commands_in_range_witness :
  ∃ s, run 10570 [pressing BAND_BUTTON_UP; pressing MODE_SWITCH] = Some s
       ∧ Forall okCmd (tunerCmds (log s)).
Proof.
  destruct (run 10570 [pressing BAND_BUTTON_UP; pressing MODE_SWITCH])
    as [s|] eqn:E; [|vm_compute in E; discriminate].
  exists s. split; [reflexivity|].
  exact (proj1 (tuner_commands_in_range s (run_reachable _ _ _ E))).
Defined.

(** X6 after [setup], one band up and a mode change to LSB. *)
Lemma loaded_iff_ssb_mode_witness :
  ∃ s, run 10570 [pressing BAND_BUTTON_UP; pressing MODE_SWITCH] = Some s
       ∧ (ssbLoaded s = true <-> (currentMode s = LSB ∨ currentMode s = USB)).
Proof.
  destruct (run 10570 [pressing BAND_BUTTON_UP; pressing MODE_SWITCH])
    as [s|] eqn:E; [|vm_compute in E; discriminate].
  exists s. split; [reflexivity|].
  exact (loaded_iff_ssb_mode s (run_reachable _ _ _ E)).
Defined.

(** X7 after [setup] and one band up. *)
Lemma fm_mode_iff_fm_band_witness :
  ∃ s, run 10570 [pressing BAND_BUTTON_UP] = Some s
       ∧ (currentMode s = FM <-> currentBandType s = Some FM_BAND_TYPE).
Proof.
  destruct (run 10570 [pressing BAND_BUTTON_UP]) as [s|] eqn:E;
    [|vm_compute in E; discriminate].
  exists s. split; [reflexivity|].
  exact (fm_mode_iff_fm_band s (run_reachable _ _ _ E)).
Defined.

(** X8 on the 40 m band. *)
Lemma band_switch_restores_tuning_witness :
  ∃ s1 s2, bandUp (on40m AM) = Some s1 ∧ bandDown s1 = Some s2
           ∧ currentFrequency s2 = 7200 ∧ currentStep s2 = 5
           ∧ bandIdx s2 = 7.
Proof.
  exact (proj1 (band_switch_restores_tuning (on40m AM) (on40m_ok AM)
                  ltac:(simpl; lia))).
Defined.

(** X10 for the erased digit of the example 10570, 10580. *)
Lemma printValue_touches_changed_cells_witness :
  glyph_y (mkGlyph 59 0 0 SSD1306_BLACK "7") = 0
  ∧ glyph_advance (mkGlyph 59 0 0 SSD1306_BLACK "7") = O.
Proof.
  destruct (printValue_touches_changed_cells
              (mkPen 0 0 0 SSD1306_WHITE) 38 0 7 "10570" "10580"
              (mkGlyph 59 0 0 SSD1306_BLACK "7"))
    as [(Hx & _)|(Hy & Ha & _)].
  - vm_compute. do 2 apply list_elem_of_further. apply list_elem_of_here.
  - discriminate Hx.
  - split; assumption.
Defined.

(** X11 after [setup] and one band up. *)
Lemma frequency_field_fixed_width_witness :
  ∃ s s', run 10570 [pressing BAND_BUTTON_UP] = Some s
          ∧ showFrequency s = Some s'
          ∧ (String.length (oldFreq s') < 20)%nat.
Proof.
  destruct (run 10570 [pressing BAND_BUTTON_UP]) as [s|] eqn:E;
    [|vm_compute in E; discriminate].
  destruct (frequency_field_fixed_width s (run_reachable _ _ _ E))
    as (s' & b & _ & Hs & _ & _ & _ & Hlt).
  exists s, s'. repeat split; assumption.
Defined.

(** X12 on the 40 m band in LSB with the BFO on. *)
Lemma bfo_turn_round_trip_witness :
  ∃ s1 s2,
    loop (turning 1) (on40m LSB |> set_ssbLoaded true |> set_bfoOn true)
    = Some s1
    ∧ loop (turning (-1)) s1 = Some s2
    ∧ currentBFO s1 = 25 ∧ currentBFO s2 = 0.
Proof.
  destruct (bfo_turn_round_trip (turning 1) (turning (-1))
              (on40m LSB |> set_ssbLoaded true |> set_bfoOn true))
    as (s1 & s2 & H1 & H2 & Hb1 & Hb2 & _);
    try reflexivity; try discriminate; try (simpl; lia);
    [apply (on40m_ok LSB)|].
  exists s1, s2. repeat split; assumption.
Defined.

(** X13 on the 40 m band, for a clockwise movement. *)
Lemma encoder_tunes_witness :
  ∃ s', loop (turning 1) (on40m AM) = Some s'
        ∧ tunerCmds (log s') = [FrequencyUp; GetFrequency].
Proof.
  destruct (encoder_tunes 16 16 0 (turning 1) (on40m AM))
    as (_ & s' & H & Hl & _);
    try reflexivity; try discriminate; [apply on40m_ok|].
  exists s'. split; assumption.
Defined.

(** X14 for a change of mode after [setup] and one band up. *)
Lemma display_follows_frequency_witness :
  ∃ s s', run 10570 [pressing BAND_BUTTON_UP] = Some s
          ∧ loop (pressing MODE_SWITCH) s = Some s'
          ∧ currentMode s = AM ∧ currentMode s' = LSB
          ∧ oledCmds (log s') = oledCmds (log s).
Proof.
  destruct (run 10570 [pressing BAND_BUTTON_UP]) as [s|] eqn:E;
    [|vm_compute in E; discriminate].
  pose proof (run_reachable _ _ _ E) as Hr.
  vm_compute in E. injection E as <-.
  eexists _, _. split; [reflexivity|].
  split; [vm_compute; reflexivity|].
  split; [reflexivity|]. split; [reflexivity|].
  refine (proj1 (proj2 (display_follows_frequency
                          (pressing MODE_SWITCH) _ _ Hr _)) _);
    vm_compute; reflexivity.
Defined.

(** X15 for seven steps from the first band. *)
Lemma bands_form_a_circle_witness :
  ∃ s', times 7 bandUp init = Some s' ∧ bandIdx s' = 7.
Proof.
  refine (proj1 (bands_form_a_circle 7 init _)).
  split; [reflexivity|]. simpl. rewrite lastBand_eq. lia.
Defined.
